(** * pop3extra.go: helper layer of the POP3 client

    A shallow embedding of [UIDL], [UidlAll], [TOP], [GetMail], [GetInfo]
    and [GetList] of pop3extra.go, with the properties of the mailbox
    helpers proved over it.

    Go values are modelled as follows: [int] is [Z] (all arithmetic of the
    file is on slice lengths and stays far from the 64-bit bounds),
    [string] is a byte string, a slice is a list read with [!!] and written
    with [<[i:=x]>], the [error] interface is an [option] ([None] is nil),
    and a function with results [(v, err)] returns the pair, since Go hands
    both to the caller.  A function either returns or panics. *)

From Stdlib Require Import ZArith String Ascii DecimalString DecimalPos Sorted.
From stdpp Require Import base list strings sorting.

Local Open Scope string_scope.
Local Open Scope list_scope.
Local Open Scope Z_scope.

(** ** Go's library functions used by the file *)

Definition byteval (b : ascii) : Z := Z.of_N (N_of_ascii b).

Definition CR : ascii := ascii_of_nat 13.
Definition LF : ascii := ascii_of_nat 10.
Definition CRLF : string := String CR (String LF "").

(** [fmt]'s [%d] verb on an [int]. *)
Definition fmt_d (n : Z) : string := NilZero.string_of_int (Z.to_int n).

Module utf8.

Definition RuneError : Z := 0xFFFD.

Definition continuation (b : Z) : bool := (0x80 <=? b) && (b <=? 0xBF).

(** Size of the encoding announced by a leading byte together with the
    range accepted for the second byte (the [first] and [acceptRanges]
    tables). *)
Definition leading (x : Z) : option (nat * Z * Z) :=
  if (0xC2 <=? x) && (x <=? 0xDF) then Some (2%nat, 0x80, 0xBF)
  else if x =? 0xE0 then Some (3%nat, 0xA0, 0xBF)
  else if (0xE1 <=? x) && (x <=? 0xEC) then Some (3%nat, 0x80, 0xBF)
  else if x =? 0xED then Some (3%nat, 0x80, 0x9F)
  else if (0xEE <=? x) && (x <=? 0xEF) then Some (3%nat, 0x80, 0xBF)
  else if x =? 0xF0 then Some (4%nat, 0x90, 0xBF)
  else if (0xF1 <=? x) && (x <=? 0xF3) then Some (4%nat, 0x80, 0xBF)
  else if x =? 0xF4 then Some (4%nat, 0x80, 0x8F)
  else None.

(** [DecodeRuneInString]: the first rune of [s] and its width in bytes;
    an invalid or truncated encoding is [RuneError] of width 1. *)
Definition DecodeRuneInString (s : string) : Z * nat :=
  match s with
  | "" => (RuneError, 0%nat)
  | String b0 t =>
      let x := byteval b0 in
      if x <? 0x80 then (x, 1%nat)
      else
        match leading x, t with
        | Some (2%nat, lo, hi), String b1 _ =>
            let y := byteval b1 in
            if (lo <=? y) && (y <=? hi)
            then (Z.lor (Z.shiftl (Z.land x 0x1F) 6) (Z.land y 0x3F), 2%nat)
            else (RuneError, 1%nat)
        | Some (3%nat, lo, hi), String b1 (String b2 _) =>
            let y := byteval b1 in
            let z := byteval b2 in
            if (lo <=? y) && (y <=? hi) && continuation z
            then (Z.lor (Z.shiftl (Z.land x 0x0F) 12)
                    (Z.lor (Z.shiftl (Z.land y 0x3F) 6) (Z.land z 0x3F)), 3%nat)
            else (RuneError, 1%nat)
        | Some (4%nat, lo, hi), String b1 (String b2 (String b3 _)) =>
            let y := byteval b1 in
            let z := byteval b2 in
            let w := byteval b3 in
            if (lo <=? y) && (y <=? hi) && continuation z && continuation w
            then (Z.lor (Z.shiftl (Z.land x 0x07) 18)
                    (Z.lor (Z.shiftl (Z.land y 0x3F) 12)
                       (Z.lor (Z.shiftl (Z.land z 0x3F) 6) (Z.land w 0x3F))), 4%nat)
            else (RuneError, 1%nat)
        | _, _ => (RuneError, 1%nat)
        end
  end.

End utf8.

Module unicode.

(** [IsSpace]: the Latin-1 white space and the rest of the White_Space
    property. *)
Definition IsSpace (r : Z) : bool :=
  ((0x09 <=? r) && (r <=? 0x0D)) || (r =? 0x20) || (r =? 0x85) || (r =? 0xA0)
  || (r =? 0x1680) || ((0x2000 <=? r) && (r <=? 0x200A))
  || (r =? 0x2028) || (r =? 0x2029) || (r =? 0x202F) || (r =? 0x205F)
  || (r =? 0x3000).

End unicode.

Module strings.

(** Closes the field under construction, if one was started. *)
Definition flush (field : string) (rest : list string) : list string :=
  match field with
  | "" => rest
  | _ => field :: rest
  end.

(** The loop of [FieldsFunc].  [range s] decodes one rune at a time; here
    the bytes are walked one by one, [inside] counting the bytes still
    belonging to the rune decoded last and [sep] telling whether that rune
    satisfied [f]. *)
Fixpoint fieldsLoop (f : Z -> bool) (s : string) (inside : nat) (sep : bool)
         (field : string) : list string :=
  match s with
  | "" => flush field []
  | String b t =>
      let '(sep', inside') :=
        match inside with
        | S k => (sep, k)
        | O => let '(r, w) := utf8.DecodeRuneInString s in (f r, Nat.pred w)
        end in
      if sep' then flush field (fieldsLoop f t inside' sep' "")
      else fieldsLoop f t inside' sep' (field +:+ String b "")
  end.

Definition FieldsFunc (s : string) (f : Z -> bool) : list string :=
  fieldsLoop f s 0 false "".

(** [Fields]: the substrings between runs of white space.  Its ASCII
    fast path agrees with [FieldsFunc s unicode.IsSpace]. *)
Definition Fields (s : string) : list string := FieldsFunc s unicode.IsSpace.

Fixpoint Join (elems : list string) (sep : string) : string :=
  match elems with
  | [] => ""
  | [e] => e
  | e :: rest => e +:+ sep +:+ Join rest sep
  end.

End strings.

(** The [error] values that reach the callers of this file. *)
Inductive NumErrKind := ErrSyntax | ErrRange.

Inductive goError :=
| NumError (Func Num : string) (Err : NumErrKind)
| Errorf (msg : string)
| ForeignError (msg : string).

Definition error := option goError.

Module strconv.

Definition maxUint64 : Z := 2 ^ 64 - 1.

(** The digit loop of [ParseUint] in base 10 with 64 bits: a byte that is
    no digit is a syntax error, an overflow a range error carrying the
    maximal value. *)
Fixpoint parseDigits (n : Z) (s : string) : Z * option NumErrKind :=
  match s with
  | "" => (n, None)
  | String c t =>
      let d := byteval c - 48 in
      if (d <? 0) || (9 <? d) then (0, Some ErrSyntax)
      else if maxUint64 / 10 + 1 <=? n then (maxUint64, Some ErrRange)
      else
        let n1 := n * 10 + d in
        if maxUint64 <? n1 then (maxUint64, Some ErrRange)
        else parseDigits n1 t
  end.

Definition ParseUint (s : string) : Z * option NumErrKind :=
  match s with
  | "" => (0, Some ErrSyntax)
  | _ => parseDigits 0 s
  end.

(** [Atoi] is [ParseInt(s, 10, 0)] with the error renamed; its fast path
    for short inputs computes the same.  [int] is 64 bits wide. *)
Definition Atoi (s : string) : Z * error :=
  match s with
  | "" => (0, Some (NumError "Atoi" s ErrSyntax))
  | String c t =>
      let neg := Ascii.eqb c "-" in
      let body := if Ascii.eqb c "+" || neg then t else s in
      match ParseUint body with
      | (_, Some ErrSyntax) => (0, Some (NumError "Atoi" s ErrSyntax))
      | (un, e) =>
          let cutoff := 2 ^ 63 in
          if negb neg && (cutoff <=? un)
          then (cutoff - 1, Some (NumError "Atoi" s ErrRange))
          else if neg && (cutoff <? un)
          then (- cutoff, Some (NumError "Atoi" s ErrRange))
          else (if neg then - un else un,
                match e with
                | Some k => Some (NumError "Atoi" s k)
                | None => None
                end)
      end
  end.

End strconv.

(** ** The collaborators: the base client and the mail parser

    [Client.Cmd], [Client.ReadLines], [Client.ListAll] and [Client.RETR]
    belong to the base client (pop3.go) and [parsemail] is another package;
    neither is part of pop3extra.go.  The client is represented by the
    transcript of the calls made on it so far, and what the connection
    answers to a call, given the transcript before it, is a parameter. *)

Inductive call :=
| CallCmd (command : string)
| CallReadLines
| CallListAll
| CallRETR (msg : Z).

Definition Client := list call.

Record Server := {
  onCmd : Client -> string -> string * error;
  onReadLines : Client -> list string * error;
  onListAll : Client -> list Z * list Z * error;
  onRETR : Client -> Z -> string * error;
}.

Module parsemail.

Class Parser := {
  Email : Type;
  zeroEmail : Email;
  Parse : string -> Email * error;
  ParseHeader : string -> Email * error;
}.

End parsemail.

(** ** Calls that return or panic, threading the client *)

Inductive panic := IndexOutOfRange (index len : nat).

Inductive outcome (A : Type) :=
| Returned (a : A)
| Panicked (p : panic).

Arguments Returned {A} a.
Arguments Panicked {A} p.

Definition M (A : Type) : Type := Client -> outcome A * Client.

Definition ret {A} (a : A) : M A := fun c => (Returned a, c).

Definition raise {A} (p : panic) : M A := fun c => (Panicked p, c).

Definition bind {A B} (m : M A) (k : A -> M B) : M B :=
  fun c =>
    match m c with
    | (Returned a, c') => k a c'
    | (Panicked p, c') => (Panicked p, c')
    end.

Definition lift {A} (o : outcome A) : M A := fun c => (o, c).

Notation "'do' x <- m ;; k" := (bind m (fun x => k))
  (at level 10, x binder, m at level 99, k at level 200).

(** [s[i]] on a slice: the element, or the run-time panic. *)
Definition index {A} (s : list A) (i : nat) : outcome A :=
  match s !! i with
  | Some x => Returned x
  | None => Panicked (IndexOutOfRange i (length s))
  end.

Record MailItem `{parsemail.Parser} := {
  Email : parsemail.Email;
  Size : Z;
  MsgNum : Z;
}.

(** The commands as [Cmd] formats them. *)
Definition uidlCommand (msg : Z) : string := "UIDL " +:+ fmt_d msg +:+ CRLF.

Definition uidlAllCommand : string := "UIDL" +:+ CRLF.

Definition topCommand (msg n : Z) : string :=
  "TOP " +:+ fmt_d msg +:+ " " +:+ fmt_d n +:+ CRLF.

Section Pop3Extra.

Context `{P : parsemail.Parser} (srv : Server).

(** *** The base client's methods *)

Definition Cmd (command : string) : M (string * error) :=
  fun c => (Returned (onCmd srv c command), c ++ [CallCmd command]).

Definition ReadLines : M (list string * error) :=
  fun c => (Returned (onReadLines srv c), c ++ [CallReadLines]).

Definition ListAll : M (list Z * list Z * error) :=
  fun c => (Returned (onListAll srv c), c ++ [CallListAll]).

Definition RETR (msg : Z) : M (string * error) :=
  fun c => (Returned (onRETR srv c msg), c ++ [CallRETR msg]).

(** *** pop3extra.go *)

Definition UIDL (msg : Z) : M (string * error) :=
  do '(l, err) <- Cmd (uidlCommand msg) ;;
  match err with
  | Some _ => ret ("", err)
  | None =>
      do uid <- lift (index (strings.Fields l) 1) ;;
      ret (uid, err)
  end.

(** The body of [for i, l := range lines] in [UidlAll], from index [i]
    on; [lines] is what is left of the slice. *)
Fixpoint uidlLoop (i : nat) (lines : list string) (msgs : list Z)
         (uids : list string) : outcome (list Z * list string * error) :=
  match lines with
  | [] => Returned (msgs, uids, None)
  | l :: rest =>
      let fs := strings.Fields l in
      match index fs 0 with
      | Panicked p => Panicked p
      | Returned f0 =>
          let '(m, err) := strconv.Atoi f0 in
          match err with
          | Some _ => Returned (msgs, uids, err)
          | None =>
              let msgs := <[i:=m]> msgs in
              match index fs 1 with
              | Panicked p => Panicked p
              | Returned f1 => uidlLoop (S i) rest msgs (<[i:=f1]> uids)
              end
          end
      end
  end.

Definition UidlAll : M (list Z * list string * error) :=
  do '(_, err) <- Cmd uidlAllCommand ;;
  match err with
  | Some _ => ret ([], [], err)
  | None =>
      do '(lines, err) <- ReadLines ;;
      match err with
      | Some _ => ret ([], [], err)
      | None =>
          let msgs := replicate (length lines) 0 in
          let uids := replicate (length lines) "" in
          lift (uidlLoop 0 lines msgs uids)
      end
  end.

Definition TOP (msg n : Z) : M (string * error) :=
  do '(_, err) <- Cmd (topCommand msg n) ;;
  match err with
  | Some _ => ret ("", err)
  | None =>
      do '(lines, err) <- ReadLines ;;
      match err with
      | Some _ => ret ("", err)
      | None => ret (strings.Join lines (String LF ""), err)
      end
  end.

Definition GetMail (msg : Z) : M (parsemail.Email * error) :=
  do '(text, err) <- RETR msg ;;
  match err with
  | Some _ => ret (parsemail.zeroEmail, err)
  | None => ret (parsemail.Parse text)
  end.

Definition GetInfo (msg : Z) : M (parsemail.Email * error) :=
  do '(text, err) <- TOP msg 120 ;;
  match err with
  | Some _ => ret (parsemail.zeroEmail, err)
  | None => ret (parsemail.ParseHeader text)
  end.

(** The first loop of [GetList], [for i := num - 1; i >= 0; i--], entered
    with [i = j - 1]; [lst] is the result [list]. *)
Fixpoint collect (n : Z) (num : nat) (msgs sizes : list Z) (j : nat)
         (lst : list MailItem) : outcome (list MailItem) :=
  match j with
  | O => Returned lst
  | S i =>
      match index sizes i with
      | Panicked p => Panicked p
      | Returned size =>
          match index msgs i with
          | Panicked p => Panicked p
          | Returned msg =>
              let item := {| Email := parsemail.zeroEmail;
                             Size := size; MsgNum := msg |} in
              let lst := lst ++ [item] in
              if (0 <? n) && (n <=? Z.of_nat num - Z.of_nat i)
              then Returned lst
              else collect n num msgs sizes i lst
          end
      end
  end.

(** The second loop of [GetList], [for i := 0; i < len(list); i++], with
    [todo = len(list) - i] iterations left. *)
Fixpoint populate (todo i : nat) (lst : list MailItem)
  : M (list MailItem * error) :=
  match todo with
  | O => ret (lst, None)
  | S todo' =>
      do item <- lift (index lst i) ;;
      do '(email, e) <- GetInfo (MsgNum item) ;;
      match e with
      | Some _ => ret (lst, e)
      | None =>
          populate todo' (S i)
            (<[i:={| Email := email; Size := Size item;
                     MsgNum := MsgNum item |}]> lst)
      end
  end.

Definition lengthMismatch : goError :=
  Errorf "GetList(): length of msgs and sizes are not the same.".

Definition GetList (n : Z) : M (list MailItem * error) :=
  do '(msgs, sizes, err) <- ListAll ;;
  match err with
  | Some _ => ret ([], err)
  | None =>
      let num := length msgs in
      if negb (num =? length sizes)%nat
      then ret ([], Some lengthMismatch)
      else
        do lst <- lift (collect n num msgs sizes num []) ;;
        populate (length lst) 0 lst
  end.

End Pop3Extra.

(** ** Concrete collaborators, to run the helpers *)

(** A parser that keeps the text as the email and rejects the empty text. *)
#[local] Instance textParser : parsemail.Parser := {|
  parsemail.Email := string;
  parsemail.zeroEmail := "";
  parsemail.Parse := fun text => (text, None);
  parsemail.ParseHeader := fun text =>
    match text with
    | "" => ("", Some (ForeignError "EOF"))
    | _ => (text, None)
    end;
|}.

(** A server that accepts every command and answers every multi-line read
    with [lines], listing messages [msgs] with sizes [sizes]. *)
Definition steady (lines : list string) (msgs sizes : list Z) : Server := {|
  onCmd := fun _ _ => ("", None);
  onReadLines := fun _ => (lines, None);
  onListAll := fun _ => (msgs, sizes, None);
  onRETR := fun _ _ => ("", None);
|}.

(** A server that answers every command with the line [l]. *)
Definition oneLine (l : string) : Server := {|
  onCmd := fun _ _ => (l, None);
  onReadLines := fun _ => ([], None);
  onListAll := fun _ => ([], [], None);
  onRETR := fun _ _ => ("", None);
|}.

(** A server like [steady] that rejects the command [bad]. *)
Definition rejecting (bad : string) (lines : list string) (msgs sizes : list Z)
  : Server := {|
  onCmd := fun _ command =>
    if String.eqb command bad then ("", Some (ForeignError "no such message"))
    else ("", None);
  onReadLines := fun _ => (lines, None);
  onListAll := fun _ => (msgs, sizes, None);
  onRETR := fun _ _ => ("", None);
|}.


(** Five messages, every header fetch succeeding. *)
Definition mailbox5 : Server :=
  steady ["Subject: a"] [1; 2; 3; 4; 5] [10; 20; 30; 40; 50].

(** Two messages, the server rejecting [TOP] on the older one. *)
Definition mailbox2 : Server :=
  rejecting (topCommand 1 120) ["Subject: a"] [1; 2] [10; 20].

(** A listing whose arrays differ in length. *)
Definition lopsided : Server := steady [] [1; 2; 3] [10; 20].

(** A server that answers every multi-line read with 200 lines. *)
Definition talkative : Server := steady (replicate 200 "x") [] [].

(** ** Vocabulary of the statements *)

(** What one iteration of the loop of [UidlAll] reads off a line. *)
Definition lineEntry (l : string) (m : Z) (uid : string) : Prop :=
  ∃ f0, strings.Fields l !! 0%nat = Some f0 ∧ strings.Fields l !! 1%nat = Some uid
        ∧ strconv.Atoi f0 = (m, None).

(** The first field of [l] is not a valid integer: [Atoi] fails with [e]. *)
Definition lineError (l : string) (e : goError) : Prop :=
  ∃ f0, strings.Fields l !! 0%nat = Some f0 ∧ (strconv.Atoi f0).2 = Some e.

Definition twoFields (l : string) : Prop := (2 <= length (strings.Fields l))%nat.

(** The commands among the calls of a transcript. *)
Definition commandsSent (calls : list call) : list string :=
  omap (λ x, match x with CallCmd command => Some command | _ => None end) calls.

(** The message number and size a summary carries. *)
Definition summary `{parsemail.Parser} (item : MailItem) : Z * Z :=
  (MsgNum item, Size item).

(** A summary as the first loop of [GetList] builds it. *)
Definition bare `{parsemail.Parser} (ms : Z * Z) : MailItem :=
  {| Email := parsemail.zeroEmail; Size := ms.2; MsgNum := ms.1 |}.

(** The email of [item] is the result of a successful [GetInfo] on its
    message number. *)
Definition fetched `{parsemail.Parser} (srv : Server) (item : MailItem) : Prop :=
  ∃ c0 c1, GetInfo srv (MsgNum item) c0 = (Returned (Email item, None), c1).

(** On every listed message [GetInfo] succeeds, whenever it is called. *)
Definition everyInfoSucceeds `{parsemail.Parser} (srv : Server) (msgs : list Z) : Prop :=
  ∀ m c0, m ∈ msgs → ∃ email c1, GetInfo srv m c0 = (Returned (email, None), c1).

(** The [GetInfo] calls on [msgs], made one after the other starting from
    the client [c], all succeed; they yield [emails] and leave the client
    [c']. *)
Fixpoint fetches `{parsemail.Parser} (srv : Server) (msgs : list Z) (c : Client)
         (emails : list parsemail.Email) (c' : Client) : Prop :=
  match msgs, emails with
  | [], [] => c' = c
  | m :: msgs', email :: emails' =>
      ∃ c1, GetInfo srv m c = (Returned (email, None), c1)
            ∧ fetches srv msgs' c1 emails' c'
  | _, _ => False
  end.

(** ** Vocabulary of the further properties *)

(** The white space of ASCII: tab, line feed, vertical tab, form feed,
    carriage return and space. *)
Definition asciiSpace (b : ascii) : bool :=
  ((0x09 <=? byteval b) && (byteval b <=? 0x0D)) || (byteval b =? 0x20).

(** The characters RFC 1939 allows in a unique id and in a number: 0x21 to
    0x7E. *)
Definition printable (b : ascii) : bool :=
  (0x21 <=? byteval b) && (byteval b <=? 0x7E).

Fixpoint allBytes (p : ascii -> bool) (s : string) : bool :=
  match s with
  | "" => true
  | String b t => p b && allBytes p t
  end.

(** A line of a UIDL response as RFC 1939 writes it: the message number, a
    space and the unique id. *)
Definition uidlLine (entry : Z * string) : string :=
  fmt_d entry.1 +:+ " " +:+ entry.2.

(** The values of a 64-bit [int]. *)
Definition inInt (m : Z) : Prop := - 2 ^ 63 <= m < 2 ^ 63.

(** The first [k] bytes of [s] exist and are no ASCII. *)
Fixpoint highPrefix (k : nat) (s : string) : Prop :=
  match k, s with
  | O, _ => True
  | S _, "" => False
  | S k', String b t => 0x80 <= byteval b /\ highPrefix k' t
  end.

(** The listing of the example in RFC 1939. *)
Definition rfcEntries : list (Z * string) :=
  [(1, "whqtswO00WBw418f9t5JxYwZ"); (2, "QhdPYR:00WBw1Ph7x7")].

Definition rfcListing : Server := steady (uidlLine <$> rfcEntries) [] [].

(** A server like [steady] whose listing fails. *)
Definition unlisted (msgs sizes : list Z) : Server := {|
  onCmd := fun _ _ => ("", None);
  onReadLines := fun _ => ([], None);
  onListAll := fun _ => (msgs, sizes, Some (ForeignError "listing failed"));
  onRETR := fun _ _ => ("", None);
|}.

(** * Properties of the helpers *)

Local Open Scope nat_scope.

Example fmt_d_ex : fmt_d 120 = "120" /\ fmt_d 0 = "0" /\ fmt_d (-7)%Z = "-7".
Proof. repeat split. Qed.

Example Fields_ex :
  strings.Fields "  1 whqtswO00WBw418f9t5JxYwZ " = ["1"; "whqtswO00WBw418f9t5JxYwZ"]
  /\ strings.Fields "" = [] /\ strings.Fields "7" = ["7"].
Proof. repeat split. Qed.

Example Fields_unicode_ex :
  strings.Fields (String "1" (String (ascii_of_nat 194) (String (ascii_of_nat 160) "ab")))
  = ["1"; "ab"]
  ∧ strings.Fields (String "1" (String (ascii_of_nat 194) "ab"))
    = [String "1" (String (ascii_of_nat 194) "ab")].
Proof. split; reflexivity. Qed.

Example Atoi_ex :
  strconv.Atoi "42" = (42%Z, None) /\ strconv.Atoi "-42" = ((-42)%Z, None)
  /\ strconv.Atoi "+" = (0%Z, Some (NumError "Atoi" "+" ErrSyntax))
  /\ strconv.Atoi "4x" = (0%Z, Some (NumError "Atoi" "4x" ErrSyntax))
  /\ strconv.Atoi "9223372036854775808"
     = (9223372036854775807%Z, Some (NumError "Atoi" "9223372036854775808" ErrRange))
  /\ strconv.Atoi "-9223372036854775808" = ((-9223372036854775808)%Z, None).
Proof. repeat split. Qed.

(** ** [strings.Fields] *)

Lemma flush_nonempty field rest :
  Forall (λ x, x ≠ "") rest → Forall (λ x, x ≠ "") (strings.flush field rest).
Proof.
  intros Hrest. destruct field as [|b t]; simpl; [done|].
  constructor; [discriminate|done].
Qed.

Lemma append_byte_nonempty field b : field +:+ String b "" ≠ "".
Proof. destruct field; discriminate. Qed.

Lemma fieldsLoop_nonempty f s :
  ∀ inside sep field, Forall (λ x, x ≠ "") (strings.fieldsLoop f s inside sep field).
Proof.
  induction s as [|b t IH]; intros inside sep field; cbn [strings.fieldsLoop].
  - apply flush_nonempty. constructor.
  - destruct inside as [|k].
    + destruct (utf8.DecodeRuneInString (String b t)) as [r w].
      destruct (f r); [apply flush_nonempty|]; apply IH.
    + destruct sep; [apply flush_nonempty|]; apply IH.
Qed.

(** Every element of the slice returned by [Fields] is non-empty. *)
Lemma Fields_nonempty s i x : strings.Fields s !! i = Some x → x ≠ "".
Proof.
  intros Hi. pose proof (fieldsLoop_nonempty unicode.IsSpace s 0 false "") as H.
  rewrite Forall_lookup in H. exact (H i x Hi).
Qed.

Lemma index_Returned {A} (s : list A) i x : index s i = Returned x ↔ s !! i = Some x.
Proof. unfold index. destruct (s !! i); split; congruence. Qed.

Lemma index_Panicked {A} (s : list A) i p :
  index s i = Panicked p ↔ length s ≤ i ∧ p = IndexOutOfRange i (length s).
Proof.
  unfold index. destruct (s !! i) eqn:E; split.
  - discriminate.
  - intros [Hle _]. apply lookup_ge_None_2 in Hle. congruence.
  - intros [= <-]. split; [by apply lookup_ge_None_1|done].
  - by intros [_ ->].
Qed.

(** ** [UIDL] *)

(** C9.  When the server rejects the scoped UIDL command, [UIDL] returns
    the command's error together with the empty unique id; and a call of
    [UIDL] that returns without an error never returns the empty string. *)
Theorem UIDL_rejected srv msg c l e :
  onCmd srv c (uidlCommand msg) = (l, Some e) →
  UIDL srv msg c = (Returned ("", Some e), c ++ [CallCmd (uidlCommand msg)])
  ∧ ∀ msg' c0 uid c1, UIDL srv msg' c0 = (Returned (uid, None), c1) → uid ≠ "".
Proof.
  intros Hcmd. split.
  - unfold UIDL, bind, Cmd. by rewrite Hcmd.
  - intros msg' c0 uid c1. unfold UIDL, bind, Cmd, lift, ret.
    destruct (onCmd srv c0 _) as [l0 [e0|]]; [discriminate|].
    destruct (index (strings.Fields l0) 1) as [x|p] eqn:Hidx; [|discriminate].
    intros [= <- _]. apply index_Returned in Hidx.
    by eapply Fields_nonempty.
Qed.

Lemma UIDL_rejected_witness :
  UIDL (rejecting (uidlCommand 7) [] [] []) 7 []
  = (Returned ("", Some (ForeignError "no such message")), [CallCmd (uidlCommand 7)]).
Proof. apply (UIDL_rejected (rejecting (uidlCommand 7) [] [] []) 7 [] ""). reflexivity. Defined.

(** ** [UidlAll] *)

(** C3.  A response line with fewer than two fields makes the indexing of
    [UIDL] and of [UidlAll] leave the slice: both panic. *)
Theorem short_line_panics :
  UIDL (oneLine "") 1 [] = (Panicked (IndexOutOfRange 1 0), [CallCmd (uidlCommand 1)])
  ∧ UidlAll (steady ["1"] [] []) []
    = (Panicked (IndexOutOfRange 1 1), [CallCmd uidlAllCommand; CallReadLines])
  ∧ UidlAll (steady [""] [] []) []
    = (Panicked (IndexOutOfRange 0 0), [CallCmd uidlAllCommand; CallReadLines]).
Proof. repeat split. Qed.

Lemma lineEntry_no_error l m uid e : lineEntry l m uid → ¬ lineError l e.
Proof.
  intros (f0 & H0 & _ & Ha) (f0' & H0' & He).
  rewrite H0 in H0'. injection H0' as <-. by rewrite Ha in He.
Qed.

(** The loop of [UidlAll] when it returns: it has handled the first [k]
    lines, written their entries at [i], [i+1], ... and left every other
    entry alone; it stopped either at the end of the lines or at line [k],
    whose number does not parse. *)
Lemma uidlLoop_returned lines :
  ∀ i msgs uids msgs' uids' err,
    uidlLoop i lines msgs uids = Returned (msgs', uids', err) →
    length msgs' = length msgs ∧ length uids' = length uids ∧
    ∃ k, k ≤ length lines
      ∧ (∀ j l, j < k → lines !! j = Some l →
           ∃ m uid, lineEntry l m uid
             ∧ (i + j < length msgs → msgs' !! (i + j) = Some m)
             ∧ (i + j < length uids → uids' !! (i + j) = Some uid))
      ∧ (∀ j, j < i ∨ i + k ≤ j → msgs' !! j = msgs !! j ∧ uids' !! j = uids !! j)
      ∧ match err with
        | None => k = length lines
        | Some e => ∃ l, lines !! k = Some l ∧ lineError l e
        end.
Proof.
  induction lines as [|l rest IH]; intros i msgs uids msgs' uids' err; cbn [uidlLoop].
  - intros [= <- <- <-]. split_and!; [done..|]. exists 0. split_and!; [done| |done..].
    intros j l Hj. lia.
  - destruct (index (strings.Fields l) 0) as [f0|p] eqn:H0; [|discriminate].
    apply index_Returned in H0.
    destruct (strconv.Atoi f0) as [m [e|]] eqn:Ha.
    + intros [= <- <- <-]. split_and!; [done..|]. exists 0. split_and!.
      * simpl; lia.
      * intros j l' Hj; lia.
      * done.
      * exists l. split; [done|]. exists f0. by rewrite Ha.
    + destruct (index (strings.Fields l) 1) as [f1|p] eqn:H1; [|discriminate].
      apply index_Returned in H1. intros Hloop.
      apply IH in Hloop as (Hlm & Hlu & k & Hk & Hfilled & Hrest & Hstop).
      rewrite length_insert in Hlm. rewrite length_insert in Hlu. split_and!; [done..|].
      exists (S k). split_and!.
      * simpl; lia.
      * intros [|j] l' Hj Hl'.
        -- injection Hl' as <-. exists m, f1. split; [by exists f0|].
           rewrite Nat.add_0_r.
           destruct (Hrest i) as [Hm Hu]; [lia|]. rewrite Hm, Hu.
           split; intros Hlt; by apply list_lookup_insert_eq.
        -- destruct (Hfilled j l') as (m' & uid' & He & Hm & Hu); [lia|done|].
           exists m', uid'. rewrite !length_insert in *.
           replace (i + S j) with (S i + j) by lia. done.
      * intros j Hj. destruct (Hrest j) as [Hm Hu]; [lia|]. rewrite Hm, Hu.
        split; apply list_lookup_insert_ne; lia.
      * destruct err as [e|]; [|simpl; lia]. done.
Qed.

(** The loop panics only on a line with fewer than two fields. *)
Lemma uidlLoop_panicked lines :
  ∀ i msgs uids p,
    uidlLoop i lines msgs uids = Panicked p → Exists (λ l, ¬ twoFields l) lines.
Proof.
  induction lines as [|l rest IH]; intros i msgs uids p; cbn [uidlLoop]; [discriminate|].
  destruct (index (strings.Fields l) 0) as [f0|p0] eqn:H0.
  - destruct (strconv.Atoi f0) as [m [e|]]; [discriminate|].
    destruct (index (strings.Fields l) 1) as [f1|p1] eqn:H1.
    + intros Hloop. apply Exists_cons_tl. by eapply IH.
    + intros _. apply Exists_cons_hd. apply index_Panicked in H1 as [H1 _].
      unfold twoFields. lia.
  - intros _. apply Exists_cons_hd. apply index_Panicked in H0 as [H0 _].
    unfold twoFields. lia.
Qed.

Lemma UidlAll_unfold srv c :
  UidlAll srv c =
    let c1 := c ++ [CallCmd uidlAllCommand] in
    match (onCmd srv c uidlAllCommand).2 with
    | Some e => (Returned ([], [], Some e), c1)
    | None =>
        let c2 := c1 ++ [CallReadLines] in
        match onReadLines srv c1 with
        | (_, Some e) => (Returned ([], [], Some e), c2)
        | (lines, None) =>
            (uidlLoop 0 lines (replicate (length lines) 0%Z)
               (replicate (length lines) ""), c2)
        end
    end.
Proof.
  unfold UidlAll, bind, Cmd, ReadLines, ret, lift. simpl.
  destruct (onCmd srv c uidlAllCommand) as [l [e|]]; simpl; [done|].
  by destruct (onReadLines srv _) as [lines [e|]].
Qed.

Lemma UidlAll_panics_on_short_line srv c p c' :
  UidlAll srv c = (Panicked p, c') →
  ∃ lines, onReadLines srv (c ++ [CallCmd uidlAllCommand]) = (lines, None)
           ∧ Exists (λ l, ¬ twoFields l) lines.
Proof.
  rewrite UidlAll_unfold. cbv zeta.
  destruct (onCmd srv c uidlAllCommand).2; [discriminate|].
  destruct (onReadLines srv _) as [lines [e|]]; [discriminate|].
  intros [= Hloop _]. exists lines. split; [done|]. by eapply uidlLoop_panicked.
Qed.

(** C4.  Whatever [UidlAll] returns, the message numbers and the unique ids
    have the same length; and when it returns without an error, both are as
    long as the response and the entries at index [i] are the number and the
    id read off line [i]. *)
Theorem UidlAll_paired srv c msgs uids err c' :
  UidlAll srv c = (Returned (msgs, uids, err), c') →
  length msgs = length uids
  ∧ (err = None →
     ∃ lines, onReadLines srv (c ++ [CallCmd uidlAllCommand]) = (lines, None)
       ∧ length msgs = length lines
       ∧ ∀ i l, lines !! i = Some l →
           ∃ m uid, lineEntry l m uid ∧ msgs !! i = Some m ∧ uids !! i = Some uid).
Proof.
  rewrite UidlAll_unfold. cbv zeta.
  destruct (onCmd srv c uidlAllCommand).2 as [e|].
  { intros [= <- <- <- _]. done. }
  destruct (onReadLines srv _) as [lines [e|]].
  { intros [= <- <- <- _]. done. }
  intros [= Hloop _].
  apply uidlLoop_returned in Hloop as (Hlm & Hlu & k & Hk & Hfilled & _ & Hstop).
  rewrite length_replicate in Hlm. rewrite length_replicate in Hlu. split; [congruence|].
  intros ->. subst k. exists lines. split_and!; [done..|].
  intros i l Hl. pose proof (lookup_lt_Some _ _ _ Hl) as Hi.
  destruct (Hfilled i l Hi Hl) as (m & uid & He & Hm & Hu).
  rewrite !length_replicate in *. exists m, uid. auto.
Qed.

Lemma UidlAll_paired_witness :
  length [1%Z; 2%Z] = length ["a"; "b"]
  ∧ (@None goError = None →
     ∃ lines, onReadLines (steady ["1 a"; "2 b"] [] []) ([] ++ [CallCmd uidlAllCommand])
              = (lines, None)
       ∧ length [1%Z; 2%Z] = length lines
       ∧ ∀ i l, lines !! i = Some l →
           ∃ m uid, lineEntry l m uid ∧ [1%Z; 2%Z] !! i = Some m
                    ∧ ["a"; "b"] !! i = Some uid).
Proof.
  apply (UidlAll_paired (steady ["1 a"; "2 b"] [] []) [] [1%Z; 2%Z] ["a"; "b"] None
           [CallCmd uidlAllCommand; CallReadLines]).
  reflexivity.
Defined.

(** On a response whose lines all have at least two fields, [UidlAll]
    returns, and it returns an error exactly when the UIDL command
    fails, the multi-line read fails, or the first field of some line is not
    a valid integer; in the last case the error is that of the first such
    line, and the entries from that line on are left untouched. *)
Theorem UidlAll_error_iff srv c lines rerr :
  onReadLines srv (c ++ [CallCmd uidlAllCommand]) = (lines, rerr) →
  ((onCmd srv c uidlAllCommand).2 = None → rerr = None → Forall twoFields lines) →
  ∃ msgs uids err c',
    UidlAll srv c = (Returned (msgs, uids, err), c')
    ∧ (err ≠ None ↔
       (onCmd srv c uidlAllCommand).2 ≠ None ∨ rerr ≠ None
       ∨ Exists (λ l, ∃ e, lineError l e) lines)
    ∧ ((onCmd srv c uidlAllCommand).2 = None → rerr = None →
       ∀ e, err = Some e →
         ∃ k l, lines !! k = Some l ∧ lineError l e
           ∧ (∀ j l', j < k → lines !! j = Some l' → ∀ e', ¬ lineError l' e')
           ∧ ∀ j, k ≤ j < length lines → msgs !! j = Some 0%Z ∧ uids !! j = Some "").
Proof.
  intros Hread Hwf. rewrite UidlAll_unfold. cbv zeta. rewrite Hread.
  destruct (onCmd srv c uidlAllCommand).2 as [e|].
  { eexists _, _, _, _. split_and!; [done| |done]. split; [by left|done]. }
  destruct rerr as [e|].
  { eexists _, _, _, _. split_and!; [done| |done]. split; [by right; left|done]. }
  specialize (Hwf eq_refl eq_refl).
  destruct (uidlLoop 0 lines _ _) as [[[msgs uids] err]|p] eqn:Hloop.
  2:{ apply uidlLoop_panicked in Hloop. apply Exists_exists in Hloop as (l & Hin & Hl).
      rewrite Forall_forall in Hwf. destruct Hl. by apply Hwf. }
  apply uidlLoop_returned in Hloop as (Hlm & Hlu & k & Hk & Hfilled & Hrest & Hstop).
  exists msgs, uids, err, ((c ++ [CallCmd uidlAllCommand]) ++ [CallReadLines]).
  split_and!; [done| |].
  - split.
    + destruct err as [e|]; [|done]. intros _. right; right.
      destruct Hstop as (l & Hl & He). apply Exists_exists. exists l.
      split; [by eapply list_elem_of_lookup_2|by exists e].
    + intros [?|[?|Hex]]; [done..|]. destruct err as [e|]; [done|]. subst k.
      apply Exists_exists in Hex as (l & Hin & e & He).
      apply list_elem_of_lookup in Hin as [j Hj].
      destruct (Hfilled j l) as (m & uid & Hentry & _); [by eapply lookup_lt_Some|done|].
      by destruct (lineEntry_no_error _ _ _ e Hentry).
  - intros _ _ e ->. destruct Hstop as (l & Hl & He). exists k, l. split_and!; [done..| |].
    + intros j l' Hj Hl' e' He'.
      destruct (Hfilled j l' Hj Hl') as (m & uid & Hentry & _).
      by destruct (lineEntry_no_error _ _ _ e' Hentry).
    + intros j [Hkj Hj]. destruct (Hrest j) as [-> ->]; [lia|].
      split; by apply lookup_replicate_2.
Qed.

(** The same on every run of [UidlAll] that returns, whatever the lines:
    short of a panic, [UidlAll] returns an error exactly when the UIDL
    command fails, the multi-line read fails, or the first field of some
    line is not a valid integer; in the last case the error is that of the
    first such line, and the entries from that line on are left
    untouched. *)
Lemma UidlAll_error_iff_returned srv c lines rerr (msgs : list Z)
      (uids : list string) err c' :
  onReadLines srv (c ++ [CallCmd uidlAllCommand]) = (lines, rerr) →
  UidlAll srv c = (Returned (msgs, uids, err), c') →
  (err ≠ None ↔
   (onCmd srv c uidlAllCommand).2 ≠ None ∨ rerr ≠ None
   ∨ Exists (λ l, ∃ e, lineError l e) lines)
  ∧ ((onCmd srv c uidlAllCommand).2 = None → rerr = None →
     ∀ e, err = Some e →
       ∃ k l, lines !! k = Some l ∧ lineError l e
         ∧ (∀ j l', j < k → lines !! j = Some l' → ∀ e', ¬ lineError l' e')
         ∧ ∀ j, k ≤ j < length lines → msgs !! j = Some 0%Z ∧ uids !! j = Some "").
Proof.
  intros Hread. rewrite UidlAll_unfold. cbv zeta. rewrite Hread.
  destruct (onCmd srv c uidlAllCommand).2 as [e|].
  { intros [= <- <- <- _]. split; [|done]. split; [by left|done]. }
  destruct rerr as [e|].
  { intros [= <- <- <- _]. split; [|done]. split; [by right; left|done]. }
  intros [= Hloop _].
  apply uidlLoop_returned in Hloop as (Hlm & Hlu & k & Hk & Hfilled & Hrest & Hstop).
  split.
  - split.
    + destruct err as [e|]; [|done]. intros _. right; right.
      destruct Hstop as (l & Hl & He). apply Exists_exists. exists l.
      split; [by eapply list_elem_of_lookup_2|by exists e].
    + intros [?|[?|Hex]]; [done..|]. destruct err as [e|]; [done|]. subst k.
      apply Exists_exists in Hex as (l & Hin & e & He).
      apply list_elem_of_lookup in Hin as [j Hj].
      destruct (Hfilled j l) as (m & uid & Hentry & _); [by eapply lookup_lt_Some|done|].
      by destruct (lineEntry_no_error _ _ _ e Hentry).
  - intros _ _ e ->. destruct Hstop as (l & Hl & He). exists k, l. split_and!; [done..| |].
    + intros j l' Hj Hl' e' He'.
      destruct (Hfilled j l' Hj Hl') as (m & uid & Hentry & _).
      by destruct (lineEntry_no_error _ _ _ e' Hentry).
    + intros j [Hkj Hj]. destruct (Hrest j) as [-> ->]; [lia|].
      split; by apply lookup_replicate_2.
Qed.

(** ** [TOP] and [GetInfo] *)

Lemma TOP_unfold srv msg n c :
  TOP srv msg n c =
    let c1 := c ++ [CallCmd (topCommand msg n)] in
    match (onCmd srv c (topCommand msg n)).2 with
    | Some e => (Returned ("", Some e), c1)
    | None =>
        match onReadLines srv c1 with
        | (_, Some e) => (Returned ("", Some e), c1 ++ [CallReadLines])
        | (lines, None) =>
            (Returned (strings.Join lines (String LF ""), None), c1 ++ [CallReadLines])
        end
    end.
Proof.
  unfold TOP, bind, Cmd, ReadLines, ret. simpl.
  destruct (onCmd srv c _) as [l [e|]]; simpl; [done|].
  by destruct (onReadLines srv _) as [lines [e|]].
Qed.

Lemma commandsSent_cmd command rest :
  commandsSent (CallCmd command :: rest) = command :: commandsSent rest.
Proof. reflexivity. Qed.

Lemma commandsSent_app calls1 calls2 :
  commandsSent (calls1 ++ calls2) = commandsSent calls1 ++ commandsSent calls2.
Proof. apply omap_app. Qed.

(** [TOP] returns, sends its one command first and no other command. *)
Lemma TOP_calls srv msg n c :
  ∃ text err rest,
    TOP srv msg n c = (Returned (text, err), c ++ CallCmd (topCommand msg n) :: rest)
    ∧ commandsSent rest = []
    ∧ err = match (onCmd srv c (topCommand msg n)).2 with
            | Some e => Some e
            | None => (onReadLines srv (c ++ [CallCmd (topCommand msg n)])).2
            end.
Proof.
  rewrite TOP_unfold. cbv zeta.
  destruct (onCmd srv c _).2 as [e|].
  { by exists "", (Some e), []. }
  destruct (onReadLines srv _) as [lines [e|]]; eexists _, _, [CallReadLines];
    by rewrite <- app_assoc.
Qed.

Lemma GetInfo_unfold `{P : parsemail.Parser} srv msg c :
  GetInfo srv msg c =
    match TOP srv msg 120 c with
    | (Returned (_, Some e), c') => (Returned (parsemail.zeroEmail, Some e), c')
    | (Returned (text, None), c') => (Returned (parsemail.ParseHeader text), c')
    | (Panicked p, c') => (Panicked p, c')
    end.
Proof.
  unfold GetInfo, bind, ret.
  by destruct (TOP srv msg 120 c) as [[[text [e|]]|p] c'].
Qed.

(** C8, amended.  [GetInfo msg] sends the one command [TOP msg 120] and,
    when it is accepted, reads the response; it hands all the lines read,
    joined by line feeds, to [ParseHeader], however many they are.  It
    returns an error exactly when the command fails, the read fails or
    [ParseHeader] fails on that text, and the error is that one; when the
    command or the read fails the email is the zero email. *)
Theorem GetInfo_top_120 `{P : parsemail.Parser} srv msg c :
  ∃ email err c',
    GetInfo srv msg c = (Returned (email, err), c')
    ∧ match (onCmd srv c (topCommand msg 120)).2,
            onReadLines srv (c ++ [CallCmd (topCommand msg 120)]) with
      | Some e, _ =>
          c' = c ++ [CallCmd (topCommand msg 120)]
          ∧ err = Some e ∧ email = parsemail.zeroEmail
      | None, (_, Some e) =>
          c' = c ++ [CallCmd (topCommand msg 120); CallReadLines]
          ∧ err = Some e ∧ email = parsemail.zeroEmail
      | None, (lines, None) =>
          c' = c ++ [CallCmd (topCommand msg 120); CallReadLines]
          ∧ (email, err) = parsemail.ParseHeader (strings.Join lines (String LF ""))
      end
    ∧ (err ≠ None ↔
       (onCmd srv c (topCommand msg 120)).2 ≠ None
       ∨ (onReadLines srv (c ++ [CallCmd (topCommand msg 120)])).2 ≠ None
       ∨ (parsemail.ParseHeader
            (strings.Join (onReadLines srv (c ++ [CallCmd (topCommand msg 120)])).1
               (String LF ""))).2 ≠ None).
Proof.
  rewrite GetInfo_unfold, TOP_unfold. cbv zeta.
  destruct (onCmd srv c (topCommand msg 120)).2 as [e|].
  { eexists _, _, _. split_and!; try done. split; [by left|done]. }
  destruct (onReadLines srv (c ++ [CallCmd (topCommand msg 120)])) as [lines [e|]];
    cbn [fst snd].
  { eexists _, _, _. rewrite <- app_assoc. split_and!; try done.
    split; [by right; left|done]. }
  destruct (parsemail.ParseHeader (strings.Join lines (String LF ""))) as [email err] eqn:Hp.
  exists email, err, (c ++ [CallCmd (topCommand msg 120); CallReadLines]).
  rewrite <- app_assoc. split_and!; try done.
  split; [intros ?; by right; right|by intros [?|[?|?]]].
Qed.

(** [GetInfo] returns, and its only command is [TOP msg 120]. *)
Lemma GetInfo_calls `{P : parsemail.Parser} srv msg c :
  ∃ email err ext,
    GetInfo srv msg c = (Returned (email, err), c ++ ext)
    ∧ commandsSent ext = [topCommand msg 120].
Proof.
  destruct (TOP_calls srv msg 120 c) as (text & terr & rest & Htop & Hrest & _).
  rewrite GetInfo_unfold, Htop.
  assert (commandsSent (CallCmd (topCommand msg 120) :: rest) = [topCommand msg 120])
    as Hc by (by rewrite commandsSent_cmd, Hrest).
  destruct terr as [e|]; [by eexists _, _, _|].
  destruct (parsemail.ParseHeader text) as [email err]. by eexists _, _, _.
Qed.

(** ** [GetList] *)

Section GetListLoops.

Context `{P : parsemail.Parser} (srv : Server).

(** With [n <= 0] the cap of the first loop never fires. *)
Lemma collect_nonpos n num msgs sizes :
  (n ≤ 0)%Z → ∀ j lst, collect n num msgs sizes j lst = collect 0 num msgs sizes j lst.
Proof.
  intros Hn. induction j as [|i IH]; intros lst; cbn [collect]; [done|].
  destruct (index sizes i); [|done]. destruct (index msgs i); [|done].
  replace (0 <? n)%Z with false by (symmetry; apply Z.ltb_ge; lia). apply IH.
Qed.

Lemma newest_first_length (msgs sizes : list Z) :
  length msgs = length sizes →
  length (bare <$> reverse (zip msgs sizes)) = length msgs.
Proof. intros Hlen. rewrite length_fmap, length_reverse, length_zip. lia. Qed.

Lemma newest_first_lookup (msgs sizes : list Z) i m s :
  length msgs = length sizes → msgs !! i = Some m → sizes !! i = Some s →
  (bare <$> reverse (zip msgs sizes)) !! (length msgs - S i) = Some (bare (m, s)).
Proof.
  intros Hlen Hm Hs. pose proof (lookup_lt_Some _ _ _ Hm) as Hi.
  assert (length (zip msgs sizes) = length msgs) as Hz by (rewrite length_zip; lia).
  rewrite list_lookup_fmap, reverse_lookup by lia. rewrite Hz.
  replace (length msgs - S (length msgs - S i)) with i by lia.
  by rewrite lookup_zip_with, Hm, Hs.
Qed.

(** The first loop, entered at [i = j - 1] with the [num - j] newest
    summaries collected and the cap not yet reached, returns the summaries
    newest first, cut at [n] when [n > 0]. *)
Lemma collect_invariant n (msgs sizes : list Z) :
  length msgs = length sizes →
  ∀ j lst,
    j ≤ length msgs →
    lst = take (length msgs - j) (bare <$> reverse (zip msgs sizes)) →
    ((0 < n)%Z → (Z.of_nat (length msgs - j) < n)%Z) →
    collect n (length msgs) msgs sizes j lst
    = Returned (if (0 <? n)%Z
                then take (Z.to_nat n) (bare <$> reverse (zip msgs sizes))
                else bare <$> reverse (zip msgs sizes)).
Proof.
  intros Hlen. pose proof (newest_first_length msgs sizes Hlen) as Hall.
  induction j as [|i IH]; intros lst Hj Hlst Hn; cbn [collect].
  - rewrite Nat.sub_0_r in *. rewrite take_ge in Hlst by lia. subst lst.
    destruct (0 <? n)%Z eqn:E; [|done]. apply Z.ltb_lt in E.
    rewrite take_ge; [done|]. specialize (Hn E). lia.
  - destruct (lookup_lt_is_Some_2 msgs i) as [m Hm]; [lia|].
    destruct (lookup_lt_is_Some_2 sizes i) as [s Hs]; [lia|].
    rewrite (proj2 (index_Returned sizes i s) Hs), (proj2 (index_Returned msgs i m) Hm).
    change {| Email := parsemail.zeroEmail; Size := s; MsgNum := m |} with (bare (m, s)).
    assert (lst ++ [bare (m, s)]
            = take (length msgs - i) (bare <$> reverse (zip msgs sizes))) as Hnext.
    { subst lst. replace (length msgs - i) with (S (length msgs - S i)) by lia.
      symmetry. apply take_S_r. by apply newest_first_lookup. }
    destruct ((0 <? n)%Z && (n <=? Z.of_nat (length msgs) - Z.of_nat i)%Z) eqn:E.
    + apply andb_true_iff in E as [E1 E2]. rewrite E1.
      apply Z.ltb_lt in E1. apply Z.leb_le in E2. specialize (Hn E1).
      rewrite Hnext. do 2 f_equal. lia.
    + apply IH; [lia|done|]. intros Hpos.
      apply andb_false_iff in E as [E|E]; [apply Z.ltb_ge in E|apply Z.leb_gt in E]; lia.
Qed.

(** The second loop entered at [i] with [todo] summaries to go: it
    returns; it keeps the message numbers and sizes; it stops at an index
    [k], having sent one [TOP] command for each summary from [i] up to where
    it stopped and nothing else; the summaries between [i] and [k] carry the
    email fetched for them, all others are as they were; and it stops either
    at the end or at the summary whose [GetInfo] fails, with that error and
    the transcript of that call. *)
Lemma populate_spec todo :
  ∀ i lst c,
    i + todo = length lst →
    ∃ lst' err ext k,
      populate srv todo i lst c = (Returned (lst', err), c ++ ext)
      ∧ summary <$> lst' = summary <$> lst
      ∧ i ≤ k ≤ length lst
      ∧ commandsSent ext
        = (λ item, topCommand (MsgNum item) 120)
            <$> take ((if err is Some _ then S k else k) - i) (drop i lst)
      ∧ (∀ j item, i ≤ j < k → lst' !! j = Some item → fetched srv item)
      ∧ (∀ j, j < i ∨ k ≤ j → lst' !! j = lst !! j)
      ∧ match err with
        | None => k = length lst
        | Some e =>
            ∃ item ck email,
              lst !! k = Some item
              ∧ GetInfo srv (MsgNum item) ck = (Returned (email, Some e), c ++ ext)
        end.
Proof.
  induction todo as [|todo IH]; intros i lst c Hlen; cbn [populate].
  - exists lst, None, [], i. rewrite app_nil_r, Nat.sub_diag.
    split_and!; try done; try lia.
  - destruct (lookup_lt_is_Some_2 lst i) as [item Hitem]; [lia|].
    unfold bind at 1, lift. rewrite (proj2 (index_Returned lst i item) Hitem).
    destruct (GetInfo_calls srv (MsgNum item) c) as (email & e & ext1 & Hinfo & Hcmd).
    unfold bind at 1. rewrite Hinfo. destruct e as [e|].
    + exists lst, (Some e), ext1, i. replace (S i - i) with 1 by lia.
      rewrite (drop_S _ _ _ Hitem), Hcmd.
      split_and!; try done; try lia.
      by exists item, c, email.
    + set (item' := {| Email := email; Size := Size item; MsgNum := MsgNum item |}).
      destruct (IH (S i) (<[i:=item']> lst) (c ++ ext1))
        as (lst' & err & ext2 & k & Hrun & Hsum & Hk & Hcmds & Hfetched & Hsame & Hstop).
      { rewrite length_insert. lia. }
      rewrite length_insert in Hk.
      exists lst', err, (ext1 ++ ext2), k. rewrite app_assoc.
      split_and!; try done; try lia.
      * rewrite Hsum, list_fmap_insert. apply list_insert_id.
        by rewrite list_lookup_fmap, Hitem.
      * rewrite commandsSent_app, Hcmd, Hcmds.
        rewrite drop_insert_lt by lia. rewrite (drop_S lst item i Hitem).
        replace ((if err is Some _ then S k else k) - i)
          with (S ((if err is Some _ then S k else k) - S i)) by (destruct err; lia).
        done.
      * intros j item0 Hj Hl. destruct (decide (j = i)) as [->|Hne].
        -- rewrite Hsame in Hl by lia.
           rewrite list_lookup_insert_eq in Hl by (by eapply lookup_lt_Some).
           injection Hl as <-. by exists c, (c ++ ext1).
        -- apply (Hfetched j); [lia|done].
      * intros j Hj. rewrite Hsame by lia. apply list_lookup_insert_ne. lia.
      * destruct err as [e|]; [|by rewrite length_insert in Hstop].
        destruct Hstop as (item0 & ck & email0 & Hl & Hfail).
        rewrite list_lookup_insert_ne in Hl by lia. by exists item0, ck, email0.
Qed.

(** Once the listing has succeeded with arrays of one length, [GetList] is
    its second loop run on the summaries newest first, cut at [n]. *)
Lemma GetList_listed n c (msgs sizes : list Z) :
  onListAll srv c = (msgs, sizes, None) →
  length msgs = length sizes →
  GetList srv n c
  = let lst := if (0 <? n)%Z
               then take (Z.to_nat n) (bare <$> reverse (zip msgs sizes))
               else bare <$> reverse (zip msgs sizes) in
    populate srv (length lst) 0 lst (c ++ [CallListAll]).
Proof.
  intros Hlist Hlen. unfold GetList, bind at 1, ListAll. rewrite Hlist.
  rewrite <- Hlen, Nat.eqb_refl. cbn [negb]. unfold bind, lift.
  rewrite (collect_invariant n msgs sizes Hlen); [done|lia| |].
  - by rewrite Nat.sub_diag.
  - rewrite Nat.sub_diag. simpl. lia.
Qed.

End GetListLoops.

Section GetListProperties.

Context `{P : parsemail.Parser} (srv : Server).

Lemma summary_bare (pairs : list (Z * Z)) : summary <$> (bare <$> pairs) = pairs.
Proof. induction pairs as [|[m s] pairs IH]; [done|]. simpl. by f_equal. Qed.

Lemma bare_Email (pairs : list (Z * Z)) t j item :
  take t (bare <$> pairs) !! j = Some item → Email item = parsemail.zeroEmail.
Proof.
  intros [Hl _]%lookup_take_Some. rewrite list_lookup_fmap in Hl.
  destruct (pairs !! j); [|done]. by injection Hl as <-.
Qed.

Lemma StronglySorted_reverse_lt (l : list Z) :
  StronglySorted Z.lt l → StronglySorted Z.gt (reverse l).
Proof.
  induction 1 as [|x l Hl IH Hx]; [constructor|].
  rewrite reverse_cons. apply StronglySorted_app. split_and!; [|done|repeat constructor].
  intros x1 x2 Hx1 Hx2. rewrite elem_of_reverse in Hx1.
  apply list_elem_of_singleton in Hx2. subst x2.
  rewrite Forall_forall in Hx. apply Z.lt_gt. by apply Hx.
Qed.

Lemma StronglySorted_take {A} (R : A → A → Prop) n (l : list A) :
  StronglySorted R l → StronglySorted R (take n l).
Proof. rewrite <- (take_drop n l) at 1. apply StronglySorted_app_1_l. Qed.

(** [GetList] after a listing of [msgs] and [sizes] of one length: it
    returns the summaries newest first, cut at [n] when [n > 0]; it stops at
    an index [k], having sent after the listing one [TOP] command for each
    summary up to where it stopped and no other command; the summaries
    before [k] carry the email fetched for them and those from [k] on the
    zero email; it stops at the end, or at the summary whose [GetInfo] fails,
    with that error and the transcript of that call. *)
Lemma GetList_after_listing n c (msgs sizes : list Z) :
  onListAll srv c = (msgs, sizes, None) →
  length msgs = length sizes →
  ∃ lst err ext k,
    GetList srv n c = (Returned (lst, err), c ++ CallListAll :: ext)
    ∧ summary <$> lst = (if (0 <? n)%Z
                         then take (Z.to_nat n) (reverse (zip msgs sizes))
                         else reverse (zip msgs sizes))
    ∧ k ≤ length lst
    ∧ commandsSent ext
      = (λ item, topCommand (MsgNum item) 120)
          <$> take (if err is Some _ then S k else k) lst
    ∧ (∀ j item, j < k → lst !! j = Some item → fetched srv item)
    ∧ (∀ j item, k ≤ j → lst !! j = Some item → Email item = parsemail.zeroEmail)
    ∧ match err with
      | None => k = length lst
      | Some e =>
          ∃ item ck email,
            lst !! k = Some item
            ∧ GetInfo srv (MsgNum item) ck
              = (Returned (email, Some e), c ++ CallListAll :: ext)
      end.
Proof.
  intros Hlist Hlen. rewrite (GetList_listed srv n c msgs sizes Hlist Hlen). cbv zeta.
  set (pairs := reverse (zip msgs sizes)).
  assert (∃ t, (if (0 <? n)%Z then take (Z.to_nat n) (bare <$> pairs) else bare <$> pairs)
               = take t (bare <$> pairs)
               ∧ (if (0 <? n)%Z then take (Z.to_nat n) pairs else pairs) = take t pairs)
    as (t & -> & ->).
  { destruct (0 <? n)%Z; [by eexists|]. exists (length pairs).
    rewrite !take_ge; [done|done|by rewrite length_fmap]. }
  set (lst0 := take t (bare <$> pairs)).
  destruct (populate_spec srv (length lst0) 0 lst0 (c ++ [CallListAll]) eq_refl)
    as (lst & err & ext & k & Hrun & Hsum & Hk & Hcmds & Hfetched & Hsame & Hstop).
  rewrite <- app_assoc in Hrun, Hstop. simpl in Hrun, Hstop.
  assert (length lst = length lst0) as Hlength
    by (rewrite <- (length_fmap summary lst), Hsum; apply length_fmap).
  exists lst, err, ext, k. split_and!.
  - done.
  - rewrite Hsum. unfold lst0. by rewrite fmap_take, summary_bare.
  - lia.
  - rewrite Hcmds, drop_0, Nat.sub_0_r.
    change (λ item, topCommand (MsgNum item) 120)
      with ((λ ms : Z * Z, topCommand ms.1 120) ∘ summary).
    by rewrite !list_fmap_compose, !fmap_take, Hsum.
  - intros j item Hj. apply Hfetched. lia.
  - intros j item Hj Hl. rewrite Hsame in Hl by lia. by eapply bare_Email.
  - destruct err as [e|]; [|lia].
    destruct Hstop as (item & ck & email & Hl & Hfail).
    rewrite <- Hsame in Hl by lia. by exists item, ck, email.
Qed.

(** The message number of a returned summary is one of the listing. *)
Lemma listed_MsgNum (msgs sizes : list Z) t (lst : list MailItem) j item :
  summary <$> lst = take t (reverse (zip msgs sizes)) →
  lst !! j = Some item → MsgNum item ∈ msgs.
Proof.
  intros Hsum Hl. assert (summary item ∈ summary <$> lst) as Hin.
  { apply list_elem_of_fmap_2. by eapply list_elem_of_lookup_2. }
  rewrite Hsum in Hin. apply elem_of_take in Hin as (i & Hi & _).
  apply list_elem_of_lookup_2 in Hi. rewrite elem_of_reverse in Hi.
  destruct (summary item) as [m s] eqn:Hs. apply elem_of_zip_l in Hi.
  by injection Hs as <- _.
Qed.

End GetListProperties.

Section GetListClaims.

Context `{P : parsemail.Parser} (srv : Server).

(** C6.  When the listing returns arrays of different lengths, [GetList]
    returns the length-mismatch error with no summary, and the listing is
    the only call it has made on the client. *)
Theorem GetList_length_mismatch n c (msgs sizes : list Z) :
  onListAll srv c = (msgs, sizes, None) →
  length msgs ≠ length sizes →
  GetList srv n c = (Returned ([], Some lengthMismatch), c ++ [CallListAll]).
Proof.
  intros Hlist Hlen. unfold GetList, bind at 1, ListAll. rewrite Hlist.
  by destruct (Nat.eqb_spec (length msgs) (length sizes)).
Qed.

(** C7.  For [n <= 0], [GetList n] is [GetList 0]: same result, same
    calls; and after a listing of [m] messages what both return is the full
    list, all [m] summaries newest first, each with the size listed for its
    number, with no error when [GetInfo] succeeds on the listed messages. *)
Theorem GetList_nonpos n c :
  (n ≤ 0)%Z →
  GetList srv n c = GetList srv 0 c
  ∧ ∀ msgs sizes,
      onListAll srv c = (msgs, sizes, None) →
      length msgs = length sizes →
      ∃ lst err c',
        GetList srv n c = (Returned (lst, err), c')
        ∧ GetList srv 0 c = (Returned (lst, err), c')
        ∧ length lst = length msgs
        ∧ summary <$> lst = reverse (zip msgs sizes)
        ∧ (everyInfoSucceeds srv msgs →
           err = None ∧ ∀ item, item ∈ lst → fetched srv item).
Proof.
  intros Hn.
  assert (GetList srv n c = GetList srv 0 c) as Hsame.
  { unfold GetList, bind at 1 3, ListAll.
    destruct (onListAll srv c) as [[msgs sizes] [e|]]; [done|].
    destruct (negb _); [done|]. unfold bind, lift. by rewrite collect_nonpos. }
  split; [done|]. intros msgs sizes Hlist Hlen. rewrite Hsame.
  destruct (GetList_after_listing srv 0 c msgs sizes Hlist Hlen)
    as (lst & err & ext & k & Hrun & Hsum & Hk & _ & Hfetched & _ & Hstop).
  cbn [Z.ltb Z.compare] in Hsum.
  exists lst, err, (c ++ CallListAll :: ext). split_and!; [done..| |done|].
  - rewrite <- (length_fmap summary lst), Hsum, length_reverse, length_zip. lia.
  - intros Hok. assert (err = None) as ->.
    { destruct err as [e|]; [|done]. destruct Hstop as (item & ck & email & Hl & Hfail).
      destruct (Hok (MsgNum item) ck) as (email' & c1 & Hgood).
      - apply (listed_MsgNum msgs sizes (length msgs) lst k item); [|done].
        rewrite Hsum. symmetry. apply take_ge.
        rewrite length_reverse, length_zip. lia.
      - rewrite Hfail in Hgood. discriminate. }
    split; [done|]. intros item [j Hj]%list_elem_of_lookup.
    apply (Hfetched j); [|done]. apply lookup_lt_Some in Hj. lia.
Qed.

(** C1.  After a listing of [m] messages in ascending order, [GetList n]
    returns summaries in strictly decreasing order of message number, each
    with the size listed for its number: the [n] newest when
    [0 < n <= m], all [m] when [n <= 0]; and it returns no error when
    [GetInfo] succeeds on the listed messages. *)
Theorem GetList_newest_first n c (msgs sizes : list Z) :
  onListAll srv c = (msgs, sizes, None) →
  length msgs = length sizes →
  Sorted Z.lt msgs →
  ∃ lst err c',
    GetList srv n c = (Returned (lst, err), c')
    ∧ Sorted Z.gt (MsgNum <$> lst)
    ∧ ((0 < n ≤ Z.of_nat (length msgs))%Z →
       length lst = Z.to_nat n
       ∧ summary <$> lst = take (Z.to_nat n) (reverse (zip msgs sizes)))
    ∧ ((n ≤ 0)%Z →
       length lst = length msgs ∧ summary <$> lst = reverse (zip msgs sizes))
    ∧ (everyInfoSucceeds srv msgs →
       err = None ∧ ∀ item, item ∈ lst → fetched srv item).
Proof.
  intros Hlist Hlen Hsorted.
  destruct (GetList_after_listing srv n c msgs sizes Hlist Hlen)
    as (lst & err & ext & k & Hrun & Hsum & Hk & _ & Hfetched & _ & Hstop).
  assert (length (reverse (zip msgs sizes)) = length msgs) as Hpairs
    by (rewrite length_reverse, length_zip; lia).
  assert (∃ t, summary <$> lst = take t (reverse (zip msgs sizes))) as [t Ht].
  { destruct (0 <? n)%Z; [by eexists|]. exists (length msgs). by rewrite take_ge by lia. }
  exists lst, err, (c ++ CallListAll :: ext). split_and!.
  - done.
  - apply StronglySorted_Sorted.
    replace (MsgNum <$> lst) with ((summary <$> lst).*1)
      by (by rewrite <- list_fmap_compose).
    rewrite Ht, fmap_take, fmap_reverse, fst_zip by lia.
    apply StronglySorted_take, StronglySorted_reverse_lt.
    apply Sorted_StronglySorted; [|done]. intros x y z. apply Z.lt_trans.
  - intros [Hpos Hle]. rewrite (proj2 (Z.ltb_lt 0 n) Hpos) in Hsum. split; [|done].
    rewrite <- (length_fmap summary lst), Hsum, length_take. lia.
  - intros Hn. rewrite (proj2 (Z.ltb_ge 0 n) Hn) in Hsum. split; [|done].
    by rewrite <- (length_fmap summary lst), Hsum.
  - intros Hok. assert (err = None) as ->.
    { destruct err as [e|]; [|done]. destruct Hstop as (item & ck & email & Hl & Hfail).
      destruct (Hok (MsgNum item) ck) as (email' & c1 & Hgood).
      - by eapply listed_MsgNum.
      - rewrite Hfail in Hgood. discriminate. }
    split; [done|]. intros item [j Hj]%list_elem_of_lookup.
    apply (Hfetched j); [|done]. apply lookup_lt_Some in Hj. lia.
Qed.

(** C10.  With [n > 0] and fewer than [n] messages listed, [GetList n]
    returns all of them, newest first, and no error when [GetInfo] succeeds
    on the listed messages. *)
Theorem GetList_short_mailbox n c (msgs sizes : list Z) :
  onListAll srv c = (msgs, sizes, None) →
  length msgs = length sizes →
  (0 < n)%Z → (Z.of_nat (length msgs) < n)%Z →
  ∃ lst err c',
    GetList srv n c = (Returned (lst, err), c')
    ∧ length lst = length msgs
    ∧ summary <$> lst = reverse (zip msgs sizes)
    ∧ (everyInfoSucceeds srv msgs → err = None).
Proof.
  intros Hlist Hlen Hpos Hshort.
  destruct (GetList_after_listing srv n c msgs sizes Hlist Hlen)
    as (lst & err & ext & k & Hrun & Hsum & Hk & _ & _ & _ & Hstop).
  rewrite (proj2 (Z.ltb_lt 0 n) Hpos) in Hsum.
  assert (length (reverse (zip msgs sizes)) = length msgs) as Hpairs
    by (rewrite length_reverse, length_zip; lia).
  exists lst, err, (c ++ CallListAll :: ext). split_and!.
  - done.
  - rewrite <- (length_fmap summary lst), Hsum, length_take. lia.
  - rewrite Hsum. apply take_ge. lia.
  - intros Hok. destruct err as [e|]; [|done].
    destruct Hstop as (item & ck & email & Hl & Hfail).
    destruct (Hok (MsgNum item) ck) as (email' & c1 & Hgood).
    + by eapply listed_MsgNum.
    + rewrite Hfail in Hgood. discriminate.
Qed.

(** Conversely to the fail-fast theorem below: when [GetList], after a good
    listing, returns an error, that error is the one of the [GetInfo] call
    on some summary [k]; the calls on the summaries before it succeeded;
    [GetList] ends with the transcript of the failing call, having sent one
    [TOP] command for each summary up to [k] and none for the later ones;
    and it hands back, next to the error, the whole list of summaries, those
    from [k] on without email. *)
Lemma GetList_fails_fast n c (msgs sizes : list Z) lst e c' :
  onListAll srv c = (msgs, sizes, None) →
  length msgs = length sizes →
  GetList srv n c = (Returned (lst, Some e), c') →
  ∃ k item ck email ext,
    lst !! k = Some item
    ∧ GetInfo srv (MsgNum item) ck = (Returned (email, Some e), c')
    ∧ (∀ j item', j < k → lst !! j = Some item' → fetched srv item')
    ∧ c' = c ++ CallListAll :: ext
    ∧ commandsSent ext = (λ item', topCommand (MsgNum item') 120) <$> take (S k) lst
    ∧ (∀ j item', k ≤ j → lst !! j = Some item' → Email item' = parsemail.zeroEmail)
    ∧ summary <$> lst = (if (0 <? n)%Z
                         then take (Z.to_nat n) (reverse (zip msgs sizes))
                         else reverse (zip msgs sizes)).
Proof.
  intros Hlist Hlen Hrun.
  destruct (GetList_after_listing srv n c msgs sizes Hlist Hlen)
    as (lst' & err & ext & k & Hrun' & Hsum & Hk & Hcmds & Hfetched & Hbare & Hstop).
  rewrite Hrun in Hrun'. injection Hrun' as <- <- ->.
  destruct Hstop as (item & ck & email & Hl & Hfail).
  by exists k, item, ck, email, ext.
Qed.

End GetListClaims.

Section GetListFirstFailure.

Context `{P : parsemail.Parser} (srv : Server).

Lemma fetches_length (msgs : list Z) :
  ∀ c emails c', fetches srv msgs c emails c' → length emails = length msgs.
Proof.
  induction msgs as [|m msgs IH]; intros c [|email emails] c'; cbn [fetches];
    try done.
  intros (c1 & _ & Hrest). simpl. f_equal. by eapply IH.
Qed.

(** Successful [GetInfo] calls in a row send one [TOP] command each. *)
Lemma fetches_commands (msgs : list Z) :
  ∀ c emails c',
    fetches srv msgs c emails c' →
    ∃ ext, c' = c ++ ext ∧ commandsSent ext = (λ m, topCommand m 120) <$> msgs.
Proof.
  induction msgs as [|m msgs IH]; intros c [|email emails] c'; cbn [fetches];
    try done.
  - intros ->. exists []. by rewrite app_nil_r.
  - intros (c1 & Hinfo & Hrest).
    destruct (GetInfo_calls srv m c) as (email0 & err0 & ext1 & Hcall & Hcmd).
    rewrite Hcall in Hinfo. injection Hinfo as _ _ <-.
    destruct (IH _ _ _ Hrest) as (ext2 & -> & Hcmds).
    exists (ext1 ++ ext2). split; [by rewrite app_assoc|].
    by rewrite commandsSent_app, Hcmd, Hcmds.
Qed.

(** The second loop when the [GetInfo] calls on the first [k] summaries
    from [i] succeed and the next one fails: it stops there, with that
    error and the transcript of that call; the [k] summaries carry the
    emails fetched and every other summary is as it was. *)
Lemma populate_first_failure k :
  ∀ i (lst : list MailItem) c todo emails ck item email e c',
    i + todo = length lst →
    k < todo →
    fetches srv (MsgNum <$> take k (drop i lst)) c emails ck →
    lst !! (i + k) = Some item →
    GetInfo srv (MsgNum item) ck = (Returned (email, Some e), c') →
    ∃ lst',
      populate srv todo i lst c = (Returned (lst', Some e), c')
      ∧ (∀ j item_j email_j,
           lst !! (i + j) = Some item_j → emails !! j = Some email_j →
           lst' !! (i + j) = Some {| Email := email_j; Size := Size item_j;
                                     MsgNum := MsgNum item_j |})
      ∧ (∀ j, j < i ∨ i + k ≤ j → lst' !! j = lst !! j).
Proof.
  induction k as [|k IH]; intros i lst c todo emails ck item email e c' Hlen Hk
    Hfetch Hitem Hfail; (destruct todo as [|todo]; [lia|]); cbn [populate].
  - rewrite take_0 in Hfetch. destruct emails; [|done]. cbn [fetches fmap list_fmap] in Hfetch.
    subst ck. rewrite Nat.add_0_r in Hitem.
    unfold bind at 1, lift. rewrite (proj2 (index_Returned lst i item) Hitem).
    unfold bind at 1. rewrite Hfail. exists lst. split_and!; [done| |done].
    intros j item_j email_j _ Hj. by rewrite lookup_nil in Hj.
  - destruct (lookup_lt_is_Some_2 lst i) as [first Hfirst]; [lia|].
    rewrite (drop_S lst first i Hfirst) in Hfetch.
    cbn [take fmap list_fmap fetches] in Hfetch.
    destruct emails as [|email0 emails]; [done|].
    destruct Hfetch as (c1 & Hinfo & Hrest).
    unfold bind at 1, lift. rewrite (proj2 (index_Returned lst i first) Hfirst).
    unfold bind at 1. rewrite Hinfo.
    set (filled := {| Email := email0; Size := Size first; MsgNum := MsgNum first |}).
    destruct (IH (S i) (<[i:=filled]> lst) c1 todo emails ck item email e c')
      as (lst' & Hrun & Hfilled & Hsame).
    + rewrite length_insert. lia.
    + lia.
    + by rewrite drop_insert_lt by lia.
    + rewrite list_lookup_insert_ne by lia. by replace (S i + k) with (i + S k) by lia.
    + done.
    + exists lst'. split_and!; [done| |].
      * intros [|j] item_j email_j Hj Hemail.
        -- rewrite Nat.add_0_r in *. rewrite Hfirst in Hj. injection Hj as <-.
           injection Hemail as <-. rewrite Hsame by lia.
           apply list_lookup_insert_eq. lia.
        -- replace (i + S j) with (S i + j) in * by lia.
           apply Hfilled; [|done]. by rewrite list_lookup_insert_ne by lia.
      * intros j Hj. rewrite Hsame by lia. apply list_lookup_insert_ne. lia.
Qed.

(** C2, amended.  After a good listing, let the [GetInfo] calls on the [k]
    newest collected summaries succeed and the call on the next one fail
    with [e].  Then [GetList] stops there and returns [e]: it ends with the
    transcript of the failing call, having sent one [TOP] command for each
    of these [k + 1] summaries and none for the later ones.  Next to the
    error it hands back the whole list of collected summaries, the first
    [k] with the emails fetched, those from the failing one on with the
    zero email. *)
Theorem GetList_first_failure n c (msgs sizes : list Z) pairs k m s emails ck
        email e c' :
  onListAll srv c = (msgs, sizes, None) →
  length msgs = length sizes →
  pairs = (if (0 <? n)%Z
           then take (Z.to_nat n) (reverse (zip msgs sizes))
           else reverse (zip msgs sizes)) →
  pairs !! k = Some (m, s) →
  fetches srv (take k pairs).*1 (c ++ [CallListAll]) emails ck →
  GetInfo srv m ck = (Returned (email, Some e), c') →
  ∃ lst ext,
    GetList srv n c = (Returned (lst, Some e), c')
    ∧ c' = c ++ CallListAll :: ext
    ∧ commandsSent ext = (λ m', topCommand m' 120) <$> (take (S k) pairs).*1
    ∧ summary <$> lst = pairs
    ∧ (∀ j email_j, emails !! j = Some email_j → Email <$> lst !! j = Some email_j)
    ∧ (∀ j item, k ≤ j → lst !! j = Some item → Email item = parsemail.zeroEmail).
Proof.
  intros Hlist Hlen Hpairs Hk Hfetch Hfail.
  rewrite (GetList_listed srv n c msgs sizes Hlist Hlen). cbv zeta.
  assert ((if (0 <? n)%Z
           then take (Z.to_nat n) (bare <$> reverse (zip msgs sizes))
           else bare <$> reverse (zip msgs sizes)) = bare <$> pairs) as ->.
  { subst pairs. destruct (0 <? n)%Z; [by rewrite fmap_take|done]. }
  clear Hpairs. set (lst0 := bare <$> pairs).
  assert (k < length pairs) as Hklt by (by eapply lookup_lt_Some).
  assert (length lst0 = length pairs) as Hlen0 by apply length_fmap.
  assert (∀ t, MsgNum <$> take t lst0 = (take t pairs).*1) as Hnums.
  { intros t. unfold lst0. rewrite <- fmap_take, <- list_fmap_compose.
    by apply list_fmap_ext. }
  destruct (populate_first_failure k 0 lst0 (c ++ [CallListAll]) (length lst0)
              emails ck (bare (m, s)) email e c')
    as (lst & Hrun & Hfilled & Hsame); [done|lia| | |done|].
  { by rewrite drop_0, Hnums. }
  { unfold lst0. cbn [Nat.add]. by rewrite list_lookup_fmap, Hk. }
  destruct (populate_spec srv (length lst0) 0 lst0 (c ++ [CallListAll]) eq_refl)
    as (lst1 & err1 & ext1 & k1 & Hrun1 & Hsum & _).
  rewrite Hrun in Hrun1. injection Hrun1 as <- _ _.
  destruct (fetches_commands _ _ _ _ Hfetch) as (extk & -> & Hcmdk).
  destruct (GetInfo_calls srv m ((c ++ [CallListAll]) ++ extk))
    as (email2 & err2 & ext2 & Hcall & Hcmd2).
  rewrite Hcall in Hfail. injection Hfail as _ _ <-.
  exists lst, (extk ++ ext2). split_and!.
  - done.
  - by rewrite <- !app_assoc.
  - rewrite commandsSent_app, Hcmdk, Hcmd2, (take_S_r pairs k (m, s) Hk).
    by rewrite !fmap_app.
  - rewrite Hsum. apply summary_bare.
  - intros j email_j Hj. pose proof (lookup_lt_Some _ _ _ Hj) as Hjk.
    rewrite (fetches_length _ _ _ _ Hfetch), length_fmap, length_take in Hjk.
    destruct (lookup_lt_is_Some_2 lst0 j) as [item_j Hitem]; [lia|].
    pose proof (Hfilled j item_j email_j Hitem Hj) as Hf. cbn [Nat.add] in Hf.
    by rewrite Hf.
  - intros j item Hj Hl. rewrite Hsame in Hl by lia.
    unfold lst0 in Hl. rewrite list_lookup_fmap in Hl.
    destruct (pairs !! j); [|done]. by injection Hl as <-.
Qed.

End GetListFirstFailure.

(** ** The theorems at concrete mailboxes *)

Lemma GetList_length_mismatch_witness :
  GetList lopsided 3 [] = (Returned ([], Some lengthMismatch), [CallListAll]).
Proof.
  apply (GetList_length_mismatch lopsided 3 [] [1; 2; 3]%Z [10; 20]%Z).
  - reflexivity.
  - simpl. lia.
Defined.

Lemma GetList_nonpos_witness :
  GetList mailbox5 (-2) [] = GetList mailbox5 0 []
  ∧ ∀ msgs sizes,
      onListAll mailbox5 [] = (msgs, sizes, None) →
      length msgs = length sizes →
      ∃ lst err c',
        GetList mailbox5 (-2) [] = (Returned (lst, err), c')
        ∧ GetList mailbox5 0 [] = (Returned (lst, err), c')
        ∧ length lst = length msgs
        ∧ summary <$> lst = reverse (zip msgs sizes)
        ∧ (everyInfoSucceeds mailbox5 msgs →
           err = None ∧ ∀ item, item ∈ lst → fetched mailbox5 item).
Proof. apply (GetList_nonpos mailbox5 (-2) []). lia. Defined.

Lemma GetList_newest_first_witness :
  ∃ lst err c',
    GetList mailbox5 3 [] = (Returned (lst, err), c')
    ∧ Sorted Z.gt (MsgNum <$> lst)
    ∧ ((0 < 3 ≤ Z.of_nat (length [1; 2; 3; 4; 5]%Z))%Z →
       length lst = Z.to_nat 3
       ∧ summary <$> lst
         = take (Z.to_nat 3) (reverse (zip [1; 2; 3; 4; 5] [10; 20; 30; 40; 50]))%Z)
    ∧ ((3 ≤ 0)%Z →
       length lst = length [1; 2; 3; 4; 5]%Z
       ∧ summary <$> lst = reverse (zip [1; 2; 3; 4; 5] [10; 20; 30; 40; 50])%Z)
    ∧ (everyInfoSucceeds mailbox5 [1; 2; 3; 4; 5]%Z →
       err = None ∧ ∀ item, item ∈ lst → fetched mailbox5 item).
Proof.
  apply (GetList_newest_first mailbox5 3 [] [1; 2; 3; 4; 5]%Z [10; 20; 30; 40; 50]%Z).
  - reflexivity.
  - reflexivity.
  - repeat constructor.
Defined.

Lemma GetList_short_mailbox_witness :
  ∃ lst err c',
    GetList mailbox5 9 [] = (Returned (lst, err), c')
    ∧ length lst = length [1; 2; 3; 4; 5]%Z
    ∧ summary <$> lst = reverse (zip [1; 2; 3; 4; 5] [10; 20; 30; 40; 50])%Z
    ∧ (everyInfoSucceeds mailbox5 [1; 2; 3; 4; 5]%Z → err = None).
Proof.
  apply (GetList_short_mailbox mailbox5 9 [] [1; 2; 3; 4; 5]%Z [10; 20; 30; 40; 50]%Z).
  - reflexivity.
  - reflexivity.
  - lia.
  - simpl. lia.
Defined.

(** C2 as stated fails: with the older of two messages rejected, [GetList]
    returns the error and, with it, both summaries, the newer one carrying
    its email. *)
Lemma GetList_returns_list_with_error :
  GetList mailbox2 0 []
  = (Returned ([{| Email := "Subject: a"; Size := 20; MsgNum := 2 |};
                {| Email := ""; Size := 10; MsgNum := 1 |}],
               Some (ForeignError "no such message")),
     [CallListAll; CallCmd (topCommand 2 120); CallReadLines;
      CallCmd (topCommand 1 120)])
  ∧ ¬ ∃ e c', GetList mailbox2 0 [] = (Returned ([], Some e), c').
Proof.
  split; [reflexivity|]. intros (e & c' & H). vm_compute in H. discriminate.
Qed.

Lemma GetList_fails_fast_witness :
  ∃ k item ck email ext,
    [{| Email := "Subject: a"; Size := 20; MsgNum := 2 |};
     {| Email := ""; Size := 10; MsgNum := 1 |}] !! k = Some item
    ∧ GetInfo mailbox2 (MsgNum item) ck
      = (Returned (email, Some (ForeignError "no such message")),
         [CallListAll; CallCmd (topCommand 2 120); CallReadLines;
          CallCmd (topCommand 1 120)])
    ∧ (∀ j item', j < k →
         [{| Email := "Subject: a"; Size := 20; MsgNum := 2 |};
          {| Email := ""; Size := 10; MsgNum := 1 |}] !! j = Some item' →
         fetched mailbox2 item')
    ∧ [CallListAll; CallCmd (topCommand 2 120); CallReadLines;
       CallCmd (topCommand 1 120)] = [] ++ CallListAll :: ext
    ∧ commandsSent ext
      = (λ item', topCommand (MsgNum item') 120)
          <$> take (S k) [{| Email := "Subject: a"; Size := 20; MsgNum := 2 |};
                          {| Email := ""; Size := 10; MsgNum := 1 |}]
    ∧ (∀ j item', k ≤ j →
         [{| Email := "Subject: a"; Size := 20; MsgNum := 2 |};
          {| Email := ""; Size := 10; MsgNum := 1 |}] !! j = Some item' →
         Email item' = parsemail.zeroEmail)
    ∧ summary <$> [{| Email := "Subject: a"; Size := 20; MsgNum := 2 |};
                   {| Email := ""; Size := 10; MsgNum := 1 |}]
      = (if (0 <? 0)%Z
         then take (Z.to_nat 0) (reverse (zip [1; 2] [10; 20]))
         else reverse (zip [1; 2] [10; 20]))%Z.
Proof.
  apply (GetList_fails_fast mailbox2 0 [] [1; 2]%Z [10; 20]%Z);
    reflexivity.
Defined.

Lemma GetList_first_failure_witness :
  ∃ lst ext,
    GetList mailbox2 0 []
    = (Returned (lst, Some (ForeignError "no such message")),
       [CallListAll; CallCmd (topCommand 2 120); CallReadLines;
        CallCmd (topCommand 1 120)])
    ∧ [CallListAll; CallCmd (topCommand 2 120); CallReadLines;
       CallCmd (topCommand 1 120)] = [] ++ CallListAll :: ext
    ∧ commandsSent ext
      = (λ m', topCommand m' 120) <$> (take 2 [(2, 20); (1, 10)]%Z).*1
    ∧ summary <$> lst = [(2, 20); (1, 10)]%Z
    ∧ (∀ j email_j,
         (["Subject: a"] : list (@parsemail.Email textParser)) !! j = Some email_j →
         Email <$> lst !! j = Some email_j)
    ∧ (∀ j item, 1 ≤ j → lst !! j = Some item → Email item = parsemail.zeroEmail).
Proof.
  apply (GetList_first_failure mailbox2 0 [] [1; 2]%Z [10; 20]%Z
           [(2, 20); (1, 10)]%Z 1 1%Z 10%Z
           (["Subject: a"] : list (@parsemail.Email textParser))
           [CallListAll; CallCmd (topCommand 2 120); CallReadLines]
           ("" : @parsemail.Email textParser)).
  - reflexivity.
  - reflexivity.
  - reflexivity.
  - reflexivity.
  - simpl. eexists. split; reflexivity.
  - reflexivity.
Defined.

(** C5.  The second line does not start with a number, so that [UidlAll]
    should return its parse error; yet it returns no error: it panics on
    the first line, which has one field. *)
Lemma UidlAll_panics_before_bad_number :
  onReadLines (steady ["1"; "x y"] [] []) [CallCmd uidlAllCommand] = (["1"; "x y"], None)
  ∧ lineError "x y" (NumError "Atoi" "x" ErrSyntax)
  ∧ UidlAll (steady ["1"; "x y"] [] []) []
    = (Panicked (IndexOutOfRange 1 1), [CallCmd uidlAllCommand; CallReadLines])
  ∧ ¬ ∃ msgs uids e c',
        UidlAll (steady ["1"; "x y"] [] []) [] = (Returned (msgs, uids, Some e), c').
Proof.
  split_and!; [reflexivity|by exists "x"|reflexivity|].
  intros (msgs & uids & e & c' & H). vm_compute in H. discriminate.
Qed.

Lemma UidlAll_error_iff_witness :
  ∃ msgs uids err c',
    UidlAll (steady ["1 a"; "x y"; "3 c"] [] []) [] = (Returned (msgs, uids, err), c')
    ∧ (err ≠ None ↔
       (onCmd (steady ["1 a"; "x y"; "3 c"] [] []) [] uidlAllCommand).2 ≠ None
       ∨ @None goError ≠ None
       ∨ Exists (λ l, ∃ e, lineError l e) ["1 a"; "x y"; "3 c"])
    ∧ ((onCmd (steady ["1 a"; "x y"; "3 c"] [] []) [] uidlAllCommand).2 = None →
       @None goError = None →
       ∀ e, err = Some e →
         ∃ k l, ["1 a"; "x y"; "3 c"] !! k = Some l ∧ lineError l e
           ∧ (∀ j l', j < k → ["1 a"; "x y"; "3 c"] !! j = Some l' →
                ∀ e', ¬ lineError l' e')
           ∧ ∀ j, k ≤ j < length ["1 a"; "x y"; "3 c"] →
               msgs !! j = Some 0%Z ∧ uids !! j = Some "").
Proof.
  apply (UidlAll_error_iff (steady ["1 a"; "x y"; "3 c"] [] []) []
           ["1 a"; "x y"; "3 c"] None).
  - reflexivity.
  - intros _ _. repeat constructor.
Defined.

(** A line with one field that is not a number comes first: [UidlAll]
    returns its parse error and does not look at the short line after it. *)
Lemma UidlAll_error_iff_returned_witness :
  (Some (NumError "Atoi" "x" ErrSyntax) ≠ None ↔
   (onCmd (steady ["x"; "1"] [] []) [] uidlAllCommand).2 ≠ None
   ∨ @None goError ≠ None
   ∨ Exists (λ l, ∃ e, lineError l e) ["x"; "1"])
  ∧ ((onCmd (steady ["x"; "1"] [] []) [] uidlAllCommand).2 = None →
     @None goError = None →
     ∀ e, Some (NumError "Atoi" "x" ErrSyntax) = Some e →
       ∃ k l, ["x"; "1"] !! k = Some l ∧ lineError l e
         ∧ (∀ j l', j < k → ["x"; "1"] !! j = Some l' → ∀ e', ¬ lineError l' e')
         ∧ ∀ j, k ≤ j < length ["x"; "1"] →
             [0%Z; 0%Z] !! j = Some 0%Z ∧ [""; ""] !! j = Some "").
Proof.
  apply (UidlAll_error_iff_returned (steady ["x"; "1"] [] []) [] ["x"; "1"] None
           [0%Z; 0%Z] [""; ""] (Some (NumError "Atoi" "x" ErrSyntax))
           [CallCmd uidlAllCommand; CallReadLines]);
    reflexivity.
Defined.

(** C8 as stated fails: the server answers [TOP 1 120] with 200 lines, and
    [GetInfo] hands all 200 of them to [ParseHeader]; with the parser that
    returns the text it is given, the email is the 200 lines joined. *)
Lemma GetInfo_parses_all_lines_read :
  onReadLines talkative [CallCmd (topCommand 1 120)] = (replicate 200 "x", None)
  ∧ length (replicate 200 "x") = 200
  ∧ GetInfo talkative 1 []
    = (Returned (strings.Join (replicate 200 "x") (String LF ""), None),
       [CallCmd (topCommand 1 120); CallReadLines])
  ∧ strings.Join (replicate 200 "x") (String LF "")
    ≠ strings.Join (take 120 (replicate 200 "x")) (String LF "").
Proof.
  split_and!; [reflexivity|reflexivity|by vm_compute|].
  vm_compute. discriminate.
Qed.

(** * Further properties *)

(** ** [strings.Fields] on plain text *)

Lemma string_app_cons b (s t : string) : String b s +:+ t = String b (s +:+ t).
Proof. reflexivity. Qed.

Lemma string_app_nil_r (s : string) : s +:+ "" = s.
Proof. induction s as [|b s IH]; [done|]. by rewrite string_app_cons, IH. Qed.

Lemma string_app_assoc (s1 s2 s3 : string) : (s1 +:+ s2) +:+ s3 = s1 +:+ (s2 +:+ s3).
Proof. induction s1 as [|b s1 IH]; [done|]. by rewrite !string_app_cons, IH. Qed.

Lemma allBytes_app p (s1 s2 : string) :
  allBytes p (s1 +:+ s2) = allBytes p s1 && allBytes p s2.
Proof.
  induction s1 as [|b s1 IH]; [done|].
  rewrite string_app_cons. cbn [allBytes]. by rewrite IH, andb_assoc.
Qed.

Lemma asciiSpace_IsSpace b : asciiSpace b = true → unicode.IsSpace (byteval b) = true.
Proof. unfold asciiSpace, unicode.IsSpace. intros ->. done. Qed.

Lemma asciiSpace_high b : (0x80 ≤ byteval b)%Z → asciiSpace b = false.
Proof.
  intros Hb. unfold asciiSpace.
  rewrite (proj2 (Z.leb_gt (byteval b) 0x0D)) by lia.
  rewrite (proj2 (Z.eqb_neq (byteval b) 0x20)) by lia.
  by rewrite andb_false_r.
Qed.

Lemma leading_range x n lo hi :
  utf8.leading x = Some (n, lo, hi) → (0x80 ≤ lo)%Z.
Proof. unfold utf8.leading. repeat case_match; intros [= <- <- <-]; lia. Qed.

Lemma continuation_high z : utf8.continuation z = true → (0x80 ≤ z)%Z.
Proof. unfold utf8.continuation. intros [H _]%andb_true_iff. by apply Z.leb_le. Qed.

(** The bytes a decoded rune spans beyond the first are no ASCII, and a
    rune decoded from an ASCII byte is that byte. *)
Lemma decode_width b t r w :
  utf8.DecodeRuneInString (String b t) = (r, w) →
  highPrefix (Nat.pred w) t ∧ ((byteval b < 0x80)%Z → r = byteval b).
Proof.
  unfold utf8.DecodeRuneInString.
  destruct (Z.ltb_spec (byteval b) 0x80) as [Hlow|Hhigh].
  { intros [= <- <-]. by split. }
  assert (∀ r' : Z, highPrefix 0 t ∧ ((byteval b < 0x80)%Z → r' = byteval b)) as Hone
    by (intros r'; split; [done|lia]).
  destruct (utf8.leading (byteval b)) as [[[n lo] hi]|] eqn:Hlead;
    [|intros [= <- <-]; apply Hone].
  apply leading_range in Hlead.
  destruct n as [|[|[|[|[|n]]]]]; destruct t as [|b1 [|b2 [|b3 t3]]];
    try (intros [= <- <-]; apply Hone).
  all: match goal with |- context [if ?cond then _ else _] => destruct cond eqn:Hc end;
    try (intros [= <- <-]; apply Hone).
  all: intros [= <- <-]; split; [|lia]; simpl.
  all: repeat match goal with
         | H : _ && _ = true |- _ => apply andb_true_iff in H as [? ?]
         | H : utf8.continuation _ = true |- _ => apply continuation_high in H
         | H : (_ <=? _)%Z = true |- _ => apply Z.leb_le in H
         end.
  all: repeat split; lia.
Qed.

Lemma flush_Forall (Q : string → Prop) field rest :
  Q field → Forall Q rest → Forall Q (strings.flush field rest).
Proof. intros Hf Hr. destruct field; simpl; [done|by constructor]. Qed.

Lemma fieldsLoop_no_space s :
  ∀ inside sep field,
    highPrefix inside s →
    allBytes (λ b, negb (asciiSpace b)) field = true →
    Forall (λ x, allBytes (λ b, negb (asciiSpace b)) x = true)
      (strings.fieldsLoop unicode.IsSpace s inside sep field).
Proof.
  induction s as [|b t IH]; intros inside sep field Hhigh Hfield;
    cbn [strings.fieldsLoop].
  - apply flush_Forall; [done|constructor].
  - assert (∀ k (sep' : bool), highPrefix k t → negb (asciiSpace b) = true →
              Forall (λ x, allBytes (λ b, negb (asciiSpace b)) x = true)
                (if sep'
                 then strings.flush field
                        (strings.fieldsLoop unicode.IsSpace t k sep' "")
                 else strings.fieldsLoop unicode.IsSpace t k sep'
                        (field +:+ String b ""))) as Hstep.
    { intros k [|] Hk Hb.
      - apply flush_Forall; [done|]. by apply IH.
      - apply IH; [done|]. rewrite allBytes_app, Hfield. simpl. by rewrite Hb. }
    destruct inside as [|k].
    + destruct (utf8.DecodeRuneInString (String b t)) as [r w] eqn:Hd.
      apply decode_width in Hd as [Hw Hr].
      destruct (unicode.IsSpace r) eqn:Hsp.
      * apply flush_Forall; [done|]. by apply IH.
      * apply (Hstep _ false Hw).
        destruct (Z.ltb_spec (byteval b) 0x80) as [Hlow|Hhi].
        -- destruct (asciiSpace b) eqn:Hs; [|done].
           apply asciiSpace_IsSpace in Hs. rewrite <- (Hr Hlow), Hsp in Hs. done.
        -- by rewrite asciiSpace_high.
    + destruct Hhigh as [Hb Hk]. apply (Hstep _ sep Hk). by rewrite asciiSpace_high.
Qed.

(** No field returned by [Fields] contains ASCII white space. *)
Lemma Fields_no_space s i x :
  strings.Fields s !! i = Some x → allBytes (λ b, negb (asciiSpace b)) x = true.
Proof.
  intros Hi.
  pose proof (fieldsLoop_no_space s 0 false "" I eq_refl) as H.
  rewrite Forall_lookup in H. exact (H i x Hi).
Qed.

Lemma printable_decode b t :
  printable b = true → utf8.DecodeRuneInString (String b t) = (byteval b, 1).
Proof.
  unfold printable. intros [_ Hb%Z.leb_le]%andb_true_iff.
  unfold utf8.DecodeRuneInString. by rewrite (proj2 (Z.ltb_lt (byteval b) 0x80)) by lia.
Qed.

Lemma printable_not_space b : printable b = true → unicode.IsSpace (byteval b) = false.
Proof.
  unfold printable. intros [Hlo%Z.leb_le Hhi%Z.leb_le]%andb_true_iff.
  unfold unicode.IsSpace.
  repeat match goal with
         | |- context [(byteval b =? ?k)%Z] =>
             rewrite (proj2 (Z.eqb_neq (byteval b) k)) by lia
         | |- context [(byteval b <=? ?k)%Z] =>
             rewrite (proj2 (Z.leb_gt (byteval b) k)) by lia
         | |- context [(?k <=? byteval b)%Z] =>
             first [rewrite (proj2 (Z.leb_gt k (byteval b))) by lia
                   |rewrite (proj2 (Z.leb_le k (byteval b))) by lia]
         end.
  reflexivity.
Qed.

Lemma fieldsLoop_sep f s sep field :
  strings.fieldsLoop f s 0 sep field = strings.fieldsLoop f s 0 false field.
Proof. by destruct s. Qed.

(** [Fields] walks through printable text without closing the field. *)
Lemma fieldsLoop_printable a :
  ∀ rest sep field,
    allBytes printable a = true →
    strings.fieldsLoop unicode.IsSpace (a +:+ rest) 0 sep field
    = strings.fieldsLoop unicode.IsSpace rest 0 false (field +:+ a).
Proof.
  induction a as [|b a IH]; intros rest sep field Ha.
  - by rewrite string_app_nil_r, fieldsLoop_sep.
  - cbn [allBytes] in Ha. apply andb_true_iff in Ha as [Hb Ha].
    rewrite string_app_cons. cbn [strings.fieldsLoop].
    rewrite (printable_decode b _ Hb), (printable_not_space b Hb). cbn [Nat.pred].
    rewrite (IH rest false _ Ha), string_app_assoc. by rewrite string_app_cons.
Qed.

(** Two printable words separated by one space are the two fields. *)
Lemma Fields_two (a u : string) :
  a ≠ "" → u ≠ "" → allBytes printable a = true → allBytes printable u = true →
  strings.Fields (a +:+ " " +:+ u) = [a; u].
Proof.
  intros Ha Hu Hpa Hpu. unfold strings.Fields, strings.FieldsFunc.
  rewrite (fieldsLoop_printable a _ false "" Hpa). change ("" +:+ a) with a.
  change (strings.fieldsLoop unicode.IsSpace (" " +:+ u) 0 false a)
    with (strings.flush a (strings.fieldsLoop unicode.IsSpace u 0 true "")).
  rewrite <- (string_app_nil_r u) at 1.
  rewrite (fieldsLoop_printable u "" true "" Hpu). change ("" +:+ u) with u.
  cbn [strings.fieldsLoop]. destruct a; [done|]. by destruct u.
Qed.

(** ** [fmt]'s [%d] and [strconv.Atoi] *)

Lemma uint_printable d : allBytes printable (NilEmpty.string_of_uint d) = true.
Proof. induction d as [|d IH|d IH|d IH|d IH|d IH|d IH|d IH|d IH|d IH|d IH]; [done|..]; exact IH. Qed.

Lemma uint_digits d :
  d ≠ Decimal.Nil →
  ∃ c t, NilEmpty.string_of_uint d = String c t
         ∧ Ascii.eqb c "+" = false ∧ Ascii.eqb c "-" = false.
Proof. destruct d; [done|..]; intros _; by eexists _, _. Qed.

Lemma NilZero_uint d :
  d ≠ Decimal.Nil → NilZero.string_of_uint d = NilEmpty.string_of_uint d.
Proof. by destruct d. Qed.

(** What [%d] prints is a non-empty printable word. *)
Lemma fmt_d_printable m : fmt_d m ≠ "" ∧ allBytes printable (fmt_d m) = true.
Proof.
  unfold fmt_d. destruct m as [|p|p]; [done|..]; cbn [Z.to_int NilZero.string_of_int].
  - pose proof (DecimalPos.Unsigned.to_uint_nonnil p) as Hd.
    rewrite NilZero_uint by done.
    destruct (uint_digits _ Hd) as (c & t & Hs & _). split; [by rewrite Hs|].
    apply uint_printable.
  - pose proof (DecimalPos.Unsigned.to_uint_nonnil p) as Hd.
    rewrite NilZero_uint by done. split; [done|]. cbn [allBytes].
    by rewrite uint_printable.
Qed.

Lemma of_uint_acc_ge d : ∀ acc, (acc ≤ Pos.of_uint_acc d acc)%positive.
Proof.
  induction d as [|d IH|d IH|d IH|d IH|d IH|d IH|d IH|d IH|d IH|d IH];
    intros acc; cbn [Pos.of_uint_acc]; [lia|..];
    match goal with |- (_ ≤ Pos.of_uint_acc _ ?a)%positive => specialize (IH a) end; lia.
Qed.

(** One turn of the digit loop on a digit that fits. *)
Lemma parseDigits_step (k : Z) c n t :
  (byteval c - 48 = k)%Z → (0 ≤ k ≤ 9)%Z → (0 ≤ n)%Z →
  (n * 10 + k ≤ strconv.maxUint64)%Z →
  strconv.parseDigits n (String c t) = strconv.parseDigits (n * 10 + k) t.
Proof.
  intros Hc Hk Hn Hfit. cbn [strconv.parseDigits]. cbv zeta. rewrite Hc.
  replace (strconv.maxUint64 / 10 + 1)%Z with 1844674407370955162%Z by reflexivity.
  unfold strconv.maxUint64 in *.
  rewrite (proj2 (Z.ltb_ge k 0)), (proj2 (Z.ltb_ge 9 k)) by lia.
  rewrite (proj2 (Z.leb_gt _ n)) by lia.
  by rewrite (proj2 (Z.ltb_ge _ _)) by lia.
Qed.

Lemma parseDigits_acc d :
  ∀ acc : positive,
    (Z.pos (Pos.of_uint_acc d acc) ≤ strconv.maxUint64)%Z →
    strconv.parseDigits (Z.pos acc) (NilEmpty.string_of_uint d)
    = (Z.pos (Pos.of_uint_acc d acc), None).
Proof.
  induction d as [|d IH|d IH|d IH|d IH|d IH|d IH|d IH|d IH|d IH|d IH];
    intros acc Hfit; [done|..];
    cbn [NilEmpty.string_of_uint Pos.of_uint_acc] in *;
    match goal with
    | |- strconv.parseDigits _ (String ?c _) = (Z.pos (Pos.of_uint_acc _ ?a), _) =>
        pose proof (of_uint_acc_ge d a) as Hge;
        let k := eval vm_compute in (byteval c - 48)%Z in
        rewrite (parseDigits_step k c) by first [reflexivity|lia];
        rewrite <- (IH a Hfit); f_equal; lia
    end.
Qed.

Lemma parseDigits_uint d :
  (Z.of_N (Pos.of_uint d) ≤ strconv.maxUint64)%Z →
  strconv.parseDigits 0 (NilEmpty.string_of_uint d) = (Z.of_N (Pos.of_uint d), None).
Proof.
  induction d as [|d IH|d IH|d IH|d IH|d IH|d IH|d IH|d IH|d IH|d IH];
    intros Hfit; [done|..];
    cbn [NilEmpty.string_of_uint Pos.of_uint N.of_uint Z.of_N] in *.
  { rewrite (parseDigits_step 0 "0") by first [reflexivity|lia].
    by apply IH. }
  all: match goal with
       | |- strconv.parseDigits _ (String ?c _) = (Z.pos (Pos.of_uint_acc _ ?a), _) =>
           pose proof (of_uint_acc_ge d a) as Hge;
           let k := eval vm_compute in (byteval c - 48)%Z in
           rewrite (parseDigits_step k c) by first [reflexivity|lia];
           exact (parseDigits_acc d a Hfit)
       end.
Qed.

Lemma Atoi_unsigned c t v :
  Ascii.eqb c "+" = false → Ascii.eqb c "-" = false →
  strconv.parseDigits 0 (String c t) = (v, None) → (v < 2 ^ 63)%Z →
  strconv.Atoi (String c t) = (v, None).
Proof.
  intros Hplus Hminus Hparse Hv. unfold strconv.Atoi, strconv.ParseUint.
  rewrite Hplus, Hminus. cbn [orb negb andb]. rewrite Hparse.
  by rewrite (proj2 (Z.leb_gt (2 ^ 63) v)) by lia.
Qed.

Lemma Atoi_negative t v :
  t ≠ "" → strconv.parseDigits 0 t = (v, None) → (v ≤ 2 ^ 63)%Z →
  strconv.Atoi (String "-" t) = ((- v)%Z, None).
Proof.
  intros Ht Hparse Hv. unfold strconv.Atoi, strconv.ParseUint.
  change (Ascii.eqb "-" "+") with false. change (Ascii.eqb "-" "-") with true.
  cbn [orb negb andb]. destruct t as [|c t]; [done|]. rewrite Hparse.
  by rewrite (proj2 (Z.ltb_ge (2 ^ 63) v)) by lia.
Qed.

(** [Atoi] reads back what [%d] prints of an [int]. *)
Lemma Atoi_fmt_d m : inInt m → strconv.Atoi (fmt_d m) = (m, None).
Proof.
  unfold inInt, fmt_d. intros Hm.
  destruct m as [|p|p]; [done|..]; cbn [Z.to_int NilZero.string_of_int];
    pose proof (DecimalPos.Unsigned.to_uint_nonnil p) as Hd;
    pose proof (DecimalPos.Unsigned.of_to p) as Hof;
    pose proof (parseDigits_uint (Pos.to_uint p)) as Hparse;
    rewrite Hof in Hparse; cbn [Z.of_N] in Hparse;
    destruct (uint_digits _ Hd) as (c & t & Hs & Hplus & Hminus).
  - rewrite NilZero_uint by done. rewrite Hs in *.
    apply Atoi_unsigned; [done..| |lia]. apply Hparse. unfold strconv.maxUint64. lia.
  - rewrite NilZero_uint by done.
    apply (Atoi_negative _ (Z.pos p)); [by rewrite Hs| |lia].
    apply Hparse. unfold strconv.maxUint64. lia.
Qed.

(** ** Further properties of [UIDL] *)

(** X1.  [UIDL] panics exactly when the command succeeds with a response
    line of fewer than two fields; in every other case it returns. *)
Theorem UIDL_panics_iff srv msg c :
  (∃ p c', UIDL srv msg c = (Panicked p, c'))
  ↔ (onCmd srv c (uidlCommand msg)).2 = None
    ∧ length (strings.Fields (onCmd srv c (uidlCommand msg)).1) < 2.
Proof.
  unfold UIDL, bind, Cmd, lift, ret.
  destruct (onCmd srv c (uidlCommand msg)) as [l [e|]]; cbn [fst snd].
  - split; [by intros (p & c' & ?)|by intros [? _]].
  - destruct (index (strings.Fields l) 1) as [uid|p] eqn:Hidx.
    + apply index_Returned, lookup_lt_Some in Hidx.
      split; [by intros (p & c' & ?)|]. intros [_ ?]. lia.
    + apply index_Panicked in Hidx as [Hlen _]. split; [by split; [|lia]|].
      intros _. by eexists _, _.
Qed.

(** X2.  The unique id [UIDL] returns without an error is the second field
    of the response line of its one command, and holds no ASCII white
    space. *)
Theorem UIDL_uid_is_second_field srv msg c uid c' :
  UIDL srv msg c = (Returned (uid, None), c') →
  c' = c ++ [CallCmd (uidlCommand msg)]
  ∧ (∃ l, onCmd srv c (uidlCommand msg) = (l, None)
          ∧ strings.Fields l !! 1 = Some uid)
  ∧ allBytes (λ b, negb (asciiSpace b)) uid = true.
Proof.
  unfold UIDL, bind, Cmd, lift, ret.
  destruct (onCmd srv c (uidlCommand msg)) as [l [e|]]; [discriminate|].
  destruct (index (strings.Fields l) 1) as [x|p] eqn:Hidx; [|discriminate].
  intros [= <- <-]. apply index_Returned in Hidx.
  split_and!; [done|by exists l|by eapply Fields_no_space].
Qed.

Lemma UIDL_uid_is_second_field_witness :
  [CallCmd (uidlCommand 1)] = [] ++ [CallCmd (uidlCommand 1)]
  ∧ (∃ l, onCmd (oneLine "1 abc") [] (uidlCommand 1) = (l, None)
          ∧ strings.Fields l !! 1 = Some "abc")
  ∧ allBytes (λ b, negb (asciiSpace b)) "abc" = true.
Proof.
  apply (UIDL_uid_is_second_field (oneLine "1 abc") 1 [] "abc" [CallCmd (uidlCommand 1)]).
  reflexivity.
Defined.

(** X3.  On a response line made of a number, a space and a non-empty
    unique id of printable characters, [UIDL] returns that unique id and no
    error, whatever the number is. *)
Theorem UIDL_rfc_line srv msg c m uid :
  onCmd srv c (uidlCommand msg) = (uidlLine (m, uid), None) →
  uid ≠ "" → allBytes printable uid = true →
  UIDL srv msg c = (Returned (uid, None), c ++ [CallCmd (uidlCommand msg)]).
Proof.
  intros Hcmd Hne Hp. unfold UIDL, bind, Cmd, lift, ret. rewrite Hcmd.
  destruct (fmt_d_printable m) as [Hm Hpm]. unfold uidlLine. cbn [fst snd].
  by rewrite (Fields_two _ _ Hm Hne Hpm Hp).
Qed.

Lemma UIDL_rfc_line_witness :
  UIDL (oneLine (uidlLine (2%Z, "QhdPYR:00WBw1Ph7x7"))) 2 []
  = (Returned ("QhdPYR:00WBw1Ph7x7", None), [] ++ [CallCmd (uidlCommand 2)]).
Proof.
  apply (UIDL_rfc_line (oneLine (uidlLine (2%Z, "QhdPYR:00WBw1Ph7x7"))) 2 [] 2).
  - reflexivity.
  - discriminate.
  - reflexivity.
Defined.

(** ** Further properties of [UidlAll] *)

Lemma lineEntry_uidlLine m uid :
  inInt m → uid ≠ "" → allBytes printable uid = true →
  lineEntry (uidlLine (m, uid)) m uid.
Proof.
  intros Hm Hne Hp. destruct (fmt_d_printable m) as [Hd Hpd].
  exists (fmt_d m). unfold uidlLine. cbn [fst snd].
  rewrite (Fields_two _ _ Hd Hne Hpd Hp). split_and!; [done..|]. by apply Atoi_fmt_d.
Qed.

(** The loop of [UidlAll] on lines that all hold an entry fills the arrays
    with the entries, in order. *)
Lemma uidlLoop_entries lines (entries : list (Z * string)) :
  Forall2 (λ l e, lineEntry l e.1 e.2) lines entries →
  ∀ i (msgs : list Z) (uids : list string),
    i + length lines = length msgs → length uids = length msgs →
    uidlLoop i lines msgs uids
    = Returned (take i msgs ++ entries.*1, take i uids ++ entries.*2, None).
Proof.
  induction 1 as [|l [m uid] lines entries (f0 & H0 & H1 & Ha) _ IH];
    intros i msgs uids Hi Hlen; cbn [uidlLoop].
  - simpl in Hi. by rewrite !take_ge, !app_nil_r by lia.
  - cbn [fst snd] in *. simpl in Hi.
    rewrite (proj2 (index_Returned _ 0 f0) H0), Ha, (proj2 (index_Returned _ 1 uid) H1).
    rewrite IH by (rewrite ?length_insert; lia).
    rewrite (take_S_r (<[i:=m]> msgs) i m) by (apply list_lookup_insert_eq; lia).
    rewrite (take_S_r (<[i:=uid]> uids) i uid) by (apply list_lookup_insert_eq; lia).
    rewrite !take_insert_ge by lia. by rewrite <- !app_assoc.
Qed.

(** X4.  [UidlAll] reads back a listing written as RFC 1939 prescribes:
    when every line is a number of an [int], a space and a non-empty unique
    id of printable characters, it returns exactly the numbers and the
    unique ids, in order, and no error. *)
Theorem UidlAll_rfc_listing srv c (entries : list (Z * string)) :
  (onCmd srv c uidlAllCommand).2 = None →
  onReadLines srv (c ++ [CallCmd uidlAllCommand]) = (uidlLine <$> entries, None) →
  Forall (λ e, inInt e.1 ∧ e.2 ≠ "" ∧ allBytes printable e.2 = true) entries →
  UidlAll srv c
  = (Returned (entries.*1, entries.*2, None),
     c ++ [CallCmd uidlAllCommand; CallReadLines]).
Proof.
  intros Hcmd Hread Hentries. rewrite UidlAll_unfold. cbv zeta. rewrite Hcmd, Hread.
  rewrite (uidlLoop_entries _ entries).
  - by rewrite <- app_assoc.
  - apply Forall2_fmap_l, Forall_Forall2_diag.
    eapply Forall_impl; [exact Hentries|]. intros [m uid] (? & ? & ?).
    by apply lineEntry_uidlLine.
  - by rewrite length_replicate.
  - by rewrite !length_replicate.
Qed.

Lemma UidlAll_rfc_listing_witness :
  UidlAll rfcListing []
  = (Returned (rfcEntries.*1, rfcEntries.*2, None),
     [] ++ [CallCmd uidlAllCommand; CallReadLines]).
Proof.
  apply (UidlAll_rfc_listing rfcListing [] rfcEntries).
  - reflexivity.
  - reflexivity.
  - repeat constructor; unfold inInt; simpl; (lia || discriminate).
Defined.

Lemma parseDigits_nonneg s : ∀ n, (0 ≤ n)%Z → (0 ≤ (strconv.parseDigits n s).1)%Z.
Proof.
  induction s as [|c t IH]; intros n Hn; cbn [strconv.parseDigits]; [done|]. cbv zeta.
  destruct ((byteval c - 48 <? 0)%Z || (9 <? byteval c - 48)%Z) eqn:Hd; [done|].
  apply orb_false_iff in Hd as [Hd%Z.ltb_ge _].
  destruct (_ <=? n)%Z; [done|]. destruct (_ <? _)%Z; [done|]. apply IH. lia.
Qed.

(** What [Atoi] returns is an [int], with or without an error. *)
Lemma Atoi_range s m e : strconv.Atoi s = (m, e) → inInt m.
Proof.
  unfold strconv.Atoi, inInt. destruct s as [|c t]; [intros [= <- _]; lia|]. cbv zeta.
  set (body := if Ascii.eqb c "+" || Ascii.eqb c "-" then t else String c t).
  assert (0 ≤ (strconv.ParseUint body).1)%Z as Hun.
  { unfold strconv.ParseUint. destruct body; [done|]. by apply parseDigits_nonneg. }
  destruct (strconv.ParseUint body) as [un [[|]|]]; cbn [fst] in Hun;
    try (intros [= <- _]; lia).
  all: destruct (Ascii.eqb c "-"); cbn [negb andb];
    repeat match goal with
           | |- context [(?a <=? ?b)%Z] => destruct (Z.leb_spec a b)
           | |- context [(?a <? ?b)%Z] => destruct (Z.ltb_spec a b)
           end; intros [= <- _]; lia.
Qed.

(** What [UidlAll] returns without an error, line by line. *)
Lemma UidlAll_success_entries srv c (msgs : list Z) (uids : list string) c' :
  UidlAll srv c = (Returned (msgs, uids, None), c') →
  ∃ lines,
    onReadLines srv (c ++ [CallCmd uidlAllCommand]) = (lines, None)
    ∧ length msgs = length lines ∧ length uids = length lines
    ∧ ∀ i l, lines !! i = Some l →
        ∃ m uid, lineEntry l m uid ∧ msgs !! i = Some m ∧ uids !! i = Some uid.
Proof.
  rewrite UidlAll_unfold. cbv zeta.
  destruct (onCmd srv c uidlAllCommand).2 as [e|]; [discriminate|].
  destruct (onReadLines srv _) as [lines [e|]]; [discriminate|].
  intros [= Hloop _].
  apply uidlLoop_returned in Hloop as (Hlm & Hlu & k & Hk & Hfilled & _ & Hstop).
  rewrite length_replicate in Hlm. rewrite length_replicate in Hlu. subst k.
  exists lines. split_and!; [done..|].
  intros i l Hl. pose proof (lookup_lt_Some _ _ _ Hl) as Hi.
  destruct (Hfilled i l Hi Hl) as (m & uid & He & Hm & Hu).
  rewrite !length_replicate in *. exists m, uid. auto.
Qed.

(** X5.  When [UidlAll] returns without an error, every message number is
    an [int] and every unique id is non-empty and free of ASCII white
    space. *)
Theorem UidlAll_entries_well_formed srv c (msgs : list Z) (uids : list string) c' :
  UidlAll srv c = (Returned (msgs, uids, None), c') →
  Forall inInt msgs
  ∧ Forall (λ uid, uid ≠ "" ∧ allBytes (λ b, negb (asciiSpace b)) uid = true) uids.
Proof.
  intros (lines & _ & Hlm & Hlu & Hentries)%UidlAll_success_entries.
  split; apply Forall_lookup; intros i x Hx.
  - destruct (lookup_lt_is_Some_2 lines i) as [l Hl];
      [apply lookup_lt_Some in Hx; lia|].
    destruct (Hentries i l Hl) as (m & uid & (f0 & _ & _ & Ha) & Hm & _).
    rewrite Hx in Hm. injection Hm as ->. by eapply Atoi_range.
  - destruct (lookup_lt_is_Some_2 lines i) as [l Hl];
      [apply lookup_lt_Some in Hx; lia|].
    destruct (Hentries i l Hl) as (m & uid & (f0 & _ & H1 & _) & _ & Hu).
    rewrite Hx in Hu. injection Hu as ->.
    split; [by eapply Fields_nonempty|by eapply Fields_no_space].
Qed.

Lemma UidlAll_entries_well_formed_witness :
  Forall inInt rfcEntries.*1
  ∧ Forall (λ uid, uid ≠ "" ∧ allBytes (λ b, negb (asciiSpace b)) uid = true)
      rfcEntries.*2.
Proof.
  apply (UidlAll_entries_well_formed rfcListing [] rfcEntries.*1 rfcEntries.*2
           [CallCmd uidlAllCommand; CallReadLines]).
  reflexivity.
Defined.

(** The loop of [UidlAll] panics exactly when it reaches, through lines
    that hold an entry, a line with fewer than two fields whose number, if
    it has one, parses. *)
Lemma uidlLoop_panics_iff lines :
  ∀ i (msgs : list Z) (uids : list string),
    (∃ p, uidlLoop i lines msgs uids = Panicked p)
    ↔ ∃ k l, lines !! k = Some l
        ∧ (∀ j l', j < k → lines !! j = Some l' → ∃ m uid, lineEntry l' m uid)
        ∧ ¬ twoFields l ∧ ∀ e, ¬ lineError l e.
Proof.
  induction lines as [|l rest IH]; intros i msgs uids; cbn [uidlLoop].
  { split; [by intros [p ?]|by intros (k & l & ? & _)]. }
  destruct (index (strings.Fields l) 0) as [f0|p0] eqn:H0.
  2:{ apply index_Panicked in H0 as [H0 _]. split; [intros _|by eexists].
      exists 0, l. split_and!; [done|intros j l' Hj; lia| |].
      - unfold twoFields. lia.
      - intros e (f & Hf & _). apply lookup_lt_Some in Hf. lia. }
  apply index_Returned in H0.
  destruct (strconv.Atoi f0) as [m [e|]] eqn:Ha.
  { split; [by intros [p ?]|]. intros ([|k] & l' & Hl' & Hbefore & Hshort & Hgood).
    - injection Hl' as <-. destruct (Hgood e). exists f0. by rewrite Ha.
    - destruct (Hbefore 0 l) as (m' & uid & f & Hf & _ & Ha'); [lia|done|].
      rewrite H0 in Hf. injection Hf as <-. by rewrite Ha in Ha'. }
  destruct (index (strings.Fields l) 1) as [f1|p1] eqn:H1.
  - apply index_Returned in H1. rewrite IH. split.
    + intros (k & l' & Hl' & Hbefore & Hshort & Hgood).
      exists (S k), l'. split_and!; [done| |done..].
      intros [|j] l0 Hj Hl0.
      * injection Hl0 as <-. exists m, f1. by exists f0.
      * apply (Hbefore j); [lia|done].
    + intros ([|k] & l' & Hl' & Hbefore & Hshort & Hgood).
      * injection Hl' as <-. destruct Hshort. unfold twoFields.
        apply lookup_lt_Some in H1. lia.
      * exists k, l'. split_and!; [done| |done..].
        intros j l0 Hj Hl0. apply (Hbefore (S j)); [lia|done].
  - apply index_Panicked in H1 as [H1 _]. split; [intros _|by eexists].
    exists 0, l. split_and!; [done|intros j l' Hj; lia| |].
    + unfold twoFields. lia.
    + intros e (f & Hf & He). rewrite H0 in Hf. injection Hf as <-. by rewrite Ha in He.
Qed.

(** X6.  [UidlAll] panics exactly when the command and the read succeed
    and, after lines that each hold a number and a unique id, a line comes
    that has fewer than two fields and no number that fails to parse. *)
Theorem UidlAll_panics_iff srv c :
  (∃ p c', UidlAll srv c = (Panicked p, c'))
  ↔ (onCmd srv c uidlAllCommand).2 = None
    ∧ ∃ lines,
        onReadLines srv (c ++ [CallCmd uidlAllCommand]) = (lines, None)
        ∧ ∃ k l, lines !! k = Some l
            ∧ (∀ j l', j < k → lines !! j = Some l' → ∃ m uid, lineEntry l' m uid)
            ∧ ¬ twoFields l ∧ ∀ e, ¬ lineError l e.
Proof.
  rewrite UidlAll_unfold. cbv zeta.
  destruct (onCmd srv c uidlAllCommand).2 as [e|].
  { split; [by intros (p & c' & ?)|by intros [? _]]. }
  destruct (onReadLines srv _) as [lines [e|]].
  { split; [by intros (p & c' & ?)|by intros (_ & lines' & ? & _)]. }
  split.
  - intros (p & c' & [= Hloop _]). split; [done|]. exists lines. split; [done|].
    apply (uidlLoop_panics_iff lines 0 (replicate (length lines) 0%Z)
             (replicate (length lines) "")). by exists p.
  - intros (_ & lines' & [= <-] & Hk).
    apply (uidlLoop_panics_iff lines 0 (replicate (length lines) 0%Z)
             (replicate (length lines) "")) in Hk as [p Hp].
    rewrite Hp. by eexists _, _.
Qed.

(** X7.  Next to a parse error [UidlAll] hands back arrays as long as the
    response: the entries of the lines before the failing one are filled
    in, those from the failing line on hold the zero values. *)
Theorem UidlAll_parse_error srv c lines (msgs : list Z) (uids : list string) e c' :
  (onCmd srv c uidlAllCommand).2 = None →
  onReadLines srv (c ++ [CallCmd uidlAllCommand]) = (lines, None) →
  UidlAll srv c = (Returned (msgs, uids, Some e), c') →
  length msgs = length lines ∧ length uids = length lines
  ∧ ∃ k l,
      lines !! k = Some l ∧ lineError l e
      ∧ (∀ j l', j < k → lines !! j = Some l' →
           ∃ m uid, lineEntry l' m uid ∧ msgs !! j = Some m ∧ uids !! j = Some uid)
      ∧ ∀ j, k ≤ j < length lines → msgs !! j = Some 0%Z ∧ uids !! j = Some "".
Proof.
  intros Hcmd Hread. rewrite UidlAll_unfold. cbv zeta. rewrite Hcmd, Hread.
  intros [= Hloop _].
  apply uidlLoop_returned in Hloop as (Hlm & Hlu & k & Hk & Hfilled & Hrest & l & Hl & He).
  rewrite length_replicate in Hlm. rewrite length_replicate in Hlu.
  split_and!; [done..|]. exists k, l. split_and!; [done..| |].
  - intros j l' Hj Hl'. destruct (Hfilled j l' Hj Hl') as (m & uid & Hentry & Hm & Hu).
    apply lookup_lt_Some in Hl'. rewrite !length_replicate in *.
    exists m, uid. split_and!; [done|apply Hm; lia|apply Hu; lia].
  - intros j [Hkj Hj]. destruct (Hrest j) as [-> ->]; [lia|].
    split; by apply lookup_replicate_2.
Qed.

Lemma UidlAll_parse_error_witness :
  length [1%Z; 0%Z; 0%Z] = length ["1 a"; "x y"; "3 c"]
  ∧ length ["a"; ""; ""] = length ["1 a"; "x y"; "3 c"]
  ∧ ∃ k l,
      ["1 a"; "x y"; "3 c"] !! k = Some l
      ∧ lineError l (NumError "Atoi" "x" ErrSyntax)
      ∧ (∀ j l', j < k → ["1 a"; "x y"; "3 c"] !! j = Some l' →
           ∃ m uid, lineEntry l' m uid ∧ [1%Z; 0%Z; 0%Z] !! j = Some m
                    ∧ ["a"; ""; ""] !! j = Some uid)
      ∧ ∀ j, k ≤ j < length ["1 a"; "x y"; "3 c"] →
          [1%Z; 0%Z; 0%Z] !! j = Some 0%Z ∧ ["a"; ""; ""] !! j = Some "".
Proof.
  apply (UidlAll_parse_error (steady ["1 a"; "x y"; "3 c"] [] []) []
           ["1 a"; "x y"; "3 c"] [1%Z; 0%Z; 0%Z] ["a"; ""; ""]
           (NumError "Atoi" "x" ErrSyntax) [CallCmd uidlAllCommand; CallReadLines]);
    reflexivity.
Defined.

(** ** The commands sent *)

(** X8.  The commands of [UIDL], [UidlAll] and [TOP] are one line each: a
    body of printable characters and single spaces, closed by CR LF. *)
Theorem commands_one_line msg n :
  (∃ body, uidlCommand msg = body +:+ CRLF
           ∧ allBytes (λ b, printable b || Ascii.eqb b " ") body = true)
  ∧ (∃ body, uidlAllCommand = body +:+ CRLF
             ∧ allBytes (λ b, printable b || Ascii.eqb b " ") body = true)
  ∧ (∃ body, topCommand msg n = body +:+ CRLF
             ∧ allBytes (λ b, printable b || Ascii.eqb b " ") body = true).
Proof.
  assert (∀ s, allBytes printable s = true →
               allBytes (λ b, printable b || Ascii.eqb b " ") s = true) as Hweak.
  { induction s as [|b s IH]; [done|]. cbn [allBytes].
    intros [-> Hs]%andb_true_iff. by rewrite IH. }
  destruct (fmt_d_printable msg) as [_ Hmsg]. destruct (fmt_d_printable n) as [_ Hn].
  split_and!.
  - exists ("UIDL " +:+ fmt_d msg). unfold uidlCommand.
    split; [by rewrite !string_app_assoc|].
    rewrite allBytes_app, (Hweak _ Hmsg). done.
  - by exists "UIDL".
  - exists ("TOP " +:+ fmt_d msg +:+ " " +:+ fmt_d n). unfold topCommand.
    split; [by rewrite !string_app_assoc|].
    rewrite !allBytes_app, (Hweak _ Hmsg), (Hweak _ Hn). done.
Qed.

(** X9.  After a rejected command neither [UidlAll] nor [TOP] reads a
    multi-line response: each returns the command's error with empty
    results, the command being the only call made. *)
Theorem rejected_command_stops srv c msg n :
  (∀ e, (onCmd srv c uidlAllCommand).2 = Some e →
        UidlAll srv c = (Returned ([], [], Some e), c ++ [CallCmd uidlAllCommand]))
  ∧ (∀ e, (onCmd srv c (topCommand msg n)).2 = Some e →
          TOP srv msg n c = (Returned ("", Some e), c ++ [CallCmd (topCommand msg n)])).
Proof.
  split; intros e He.
  - rewrite UidlAll_unfold. cbv zeta. by rewrite He.
  - rewrite TOP_unfold. cbv zeta. by rewrite He.
Qed.

Lemma rejected_command_stops_witness :
  TOP mailbox2 1 120 [] = (Returned ("", Some (ForeignError "no such message")),
                           [] ++ [CallCmd (topCommand 1 120)]).
Proof.
  apply (proj2 (rejected_command_stops mailbox2 [] 1 120)). reflexivity.
Defined.

(** ** [GetMail] *)

(** X10.  [GetMail msg] makes one call, [RETR msg], and hands the text to
    [Parse]; it returns an error exactly when [RETR] or [Parse] fails, that
    error, and the zero email when [RETR] fails. *)
Theorem GetMail_retr `{P : parsemail.Parser} srv msg c :
  ∃ email err,
    GetMail srv msg c = (Returned (email, err), c ++ [CallRETR msg])
    ∧ (err ≠ None ↔
       (onRETR srv c msg).2 ≠ None
       ∨ (parsemail.Parse (onRETR srv c msg).1).2 ≠ None)
    ∧ match (onRETR srv c msg).2 with
      | Some e => err = Some e ∧ email = parsemail.zeroEmail
      | None => (email, err) = parsemail.Parse (onRETR srv c msg).1
      end.
Proof.
  unfold GetMail, bind, RETR, ret.
  destruct (onRETR srv c msg) as [text [e|]]; cbn [fst snd].
  - exists parsemail.zeroEmail, (Some e). split_and!; try done. split; [by left|done].
  - destruct (parsemail.Parse text) as [email err] eqn:Hp.
    exists email, err. split_and!; try done. cbn [snd].
    split; [intros ?; by right|by intros [?|?]].
Qed.

(** ** Further properties of [GetList] *)

Section GetListFurther.

Context `{P : parsemail.Parser} (srv : Server).

(** X11.  [GetList] never panics: both loops stay within their slices.
    Whatever the server answers, it returns; the listing is its first call;
    after it, it sends only [TOP] commands asking for 120 lines, no more
    than one for each summary it returns, and it returns at most [n]
    summaries when [n > 0]. *)
Theorem GetList_returns n c :
  ∃ lst err ext,
    GetList srv n c = (Returned (lst, err), c ++ CallListAll :: ext)
    ∧ Forall (λ command, ∃ msg, command = topCommand msg 120) (commandsSent ext)
    ∧ length (commandsSent ext) ≤ length lst
    ∧ ((0 < n)%Z → length lst ≤ Z.to_nat n).
Proof.
  destruct (onListAll srv c) as [[msgs sizes] [e|]] eqn:Hlist.
  - exists [], (Some e), []. unfold GetList, bind at 1, ListAll. rewrite Hlist.
    split_and!; [done|constructor|done|simpl; lia].
  - destruct (decide (length msgs = length sizes)) as [Hlen|Hlen].
    + destruct (GetList_after_listing srv n c msgs sizes Hlist Hlen)
        as (lst & err & ext & k & Hrun & Hsum & Hk & Hcmds & _ & _ & Hstop).
      exists lst, err, ext. rewrite Hcmds. split_and!.
      * done.
      * apply Forall_fmap, Forall_true. intros item. by eexists.
      * rewrite length_fmap, length_take. lia.
      * intros Hn. rewrite (proj2 (Z.ltb_lt 0 n) Hn) in Hsum.
        rewrite <- (length_fmap summary lst), Hsum, length_take. lia.
    + exists [], (Some lengthMismatch), [].
      unfold GetList, bind at 1, ListAll. rewrite Hlist.
      destruct (Nat.eqb_spec (length msgs) (length sizes)); [done|].
      split_and!; [done|constructor|done|simpl; lia].
Qed.

(** X12.  When the listing fails, [GetList] returns its error and no
    summary, whatever arrays came with the error, and makes no other call. *)
Theorem GetList_listing_fails n c (msgs sizes : list Z) e :
  onListAll srv c = (msgs, sizes, Some e) →
  GetList srv n c = (Returned ([], Some e), c ++ [CallListAll]).
Proof. intros Hlist. unfold GetList, bind at 1, ListAll. by rewrite Hlist. Qed.

(** X13.  When [GetList] returns without an error after a listing of
    arrays of one length, it has sent, after the listing, exactly one
    [TOP] command with 120 lines for each summary it returns, in the order
    of the summaries; there are [min n m] summaries when [n > 0] and [m]
    otherwise, each with the email fetched for it. *)
Theorem GetList_success_cost n c (msgs sizes : list Z) lst c' :
  onListAll srv c = (msgs, sizes, None) →
  length msgs = length sizes →
  GetList srv n c = (Returned (lst, None), c') →
  (∃ ext, c' = c ++ CallListAll :: ext
          ∧ commandsSent ext = (λ item, topCommand (MsgNum item) 120) <$> lst)
  ∧ length lst = (if (0 <? n)%Z then Z.to_nat n `min` length msgs else length msgs)
  ∧ ∀ item, item ∈ lst → fetched srv item.
Proof.
  intros Hlist Hlen Hrun.
  destruct (GetList_after_listing srv n c msgs sizes Hlist Hlen)
    as (lst' & err & ext & k & Hrun' & Hsum & Hk & Hcmds & Hfetched & _ & Hstop).
  rewrite Hrun in Hrun'. injection Hrun' as <- <- ->. subst k.
  rewrite firstn_all in Hcmds. split_and!.
  - by exists ext.
  - rewrite <- (length_fmap summary lst), Hsum.
    assert (length (reverse (zip msgs sizes)) = length msgs) as Hpairs
      by (rewrite length_reverse, length_zip; lia).
    destruct (0 <? n)%Z; [|done]. by rewrite length_take, Hpairs.
  - intros item [j Hj]%list_elem_of_lookup.
    apply (Hfetched j); [|done]. by eapply lookup_lt_Some.
Qed.

(** X14.  Every error [GetList] returns is the error of the listing, the
    length-mismatch error after a listing of arrays of different lengths,
    or the error of a [GetInfo] call on one of the summaries it returns. *)
Theorem GetList_error_sources n c lst e c' :
  GetList srv n c = (Returned (lst, Some e), c') →
  (∃ msgs sizes, onListAll srv c = (msgs, sizes, Some e))
  ∨ (∃ msgs sizes, onListAll srv c = (msgs, sizes, None)
                   ∧ length msgs ≠ length sizes ∧ e = lengthMismatch)
  ∨ (∃ item ck email,
       item ∈ lst
       ∧ GetInfo srv (MsgNum item) ck = (Returned (email, Some e), c')).
Proof.
  intros Hrun. destruct (onListAll srv c) as [[msgs sizes] [e0|]] eqn:Hlist.
  - unfold GetList, bind at 1, ListAll in Hrun. rewrite Hlist in Hrun.
    injection Hrun as <- <- <-. left. by exists msgs, sizes.
  - destruct (decide (length msgs = length sizes)) as [Hlen|Hlen].
    + right; right.
      destruct (GetList_after_listing srv n c msgs sizes Hlist Hlen)
        as (lst' & err & ext & k & Hrun' & _ & _ & _ & _ & _ & Hstop).
      rewrite Hrun in Hrun'. injection Hrun' as <- <- ->.
      destruct Hstop as (item & ck & email & Hl & Hfail).
      exists item, ck, email. split; [by eapply list_elem_of_lookup_2|done].
    + right; left. exists msgs, sizes. split_and!; [done..|].
      unfold GetList, bind at 1, ListAll in Hrun. rewrite Hlist in Hrun.
      destruct (Nat.eqb_spec (length msgs) (length sizes)); [done|].
      by injection Hrun as _ <- _.
Qed.

(** Summaries behind the ones [populate] works on are carried along
    untouched. *)
Lemma populate_app todo :
  ∀ i (lst more : list MailItem) c,
    i + todo ≤ length lst →
    populate srv todo i (lst ++ more) c
    = match populate srv todo i lst c with
      | (Returned (lst', err), c') => (Returned (lst' ++ more, err), c')
      | (Panicked p, c') => (Panicked p, c')
      end.
Proof.
  induction todo as [|todo IH]; intros i lst more c Hi; cbn [populate]; [done|].
  destruct (lookup_lt_is_Some_2 lst i) as [item Hitem]; [lia|].
  unfold bind at 1 3, lift.
  rewrite (proj2 (index_Returned lst i item) Hitem).
  rewrite (proj2 (index_Returned (lst ++ more) i item))
    by (by rewrite lookup_app_l by lia).
  unfold bind at 1 2.
  destruct (GetInfo srv (MsgNum item) c) as [[[email [e|]]|p] c1]; [done| |done].
  rewrite insert_app_l by lia. apply IH. rewrite length_insert. lia.
Qed.

(** The second loop taken in two stretches. *)
Lemma populate_split t1 :
  ∀ t2 i (lst : list MailItem) c,
    populate srv (t1 + t2) i lst c
    = match populate srv t1 i lst c with
      | (Returned (lst', None), c') => populate srv t2 (i + t1) lst' c'
      | other => other
      end.
Proof.
  induction t1 as [|t1 IH]; intros t2 i lst c.
  { cbn [populate Nat.add]. unfold ret. by rewrite Nat.add_0_r. }
  cbn [populate Nat.add]. unfold bind at 1 3, lift.
  destruct (index lst i) as [item|p]; [|done]. unfold bind at 1 2.
  destruct (GetInfo srv (MsgNum item) c) as [[[email [e|]]|p] c1]; [done| |done].
  rewrite IH. by replace (i + S t1) with (S i + t1) by lia.
Qed.

(** X15.  What [GetList n] returns for [n > 0] is a prefix of what
    [GetList 0] returns: when [GetList 0] succeeds, [GetList n] run on the
    same client succeeds too and returns the first [n] of its summaries,
    emails included. *)
Theorem GetList_prefix n c lst0 c0 :
  GetList srv 0 c = (Returned (lst0, None), c0) →
  (0 < n)%Z →
  ∃ c', GetList srv n c = (Returned (take (Z.to_nat n) lst0, None), c').
Proof.
  intros Hall Hn.
  destruct (onListAll srv c) as [[msgs sizes] [e|]] eqn:Hlist.
  { unfold GetList, bind at 1, ListAll in Hall. by rewrite Hlist in Hall. }
  destruct (decide (length msgs = length sizes)) as [Hlen|Hlen].
  2:{ unfold GetList, bind at 1, ListAll in Hall. rewrite Hlist in Hall.
      by destruct (Nat.eqb_spec (length msgs) (length sizes)). }
  rewrite (GetList_listed srv 0 c msgs sizes Hlist Hlen) in Hall.
  rewrite (GetList_listed srv n c msgs sizes Hlist Hlen).
  rewrite (proj2 (Z.ltb_lt 0 n) Hn). cbv zeta in *. cbn [Z.ltb Z.compare] in Hall.
  set (full := bare <$> reverse (zip msgs sizes)) in *.
  set (t := Z.to_nat n). set (c1 := c ++ [CallListAll]) in *.
  assert (length full = length (take t full) + length (drop t full)) as Hsplit
    by (rewrite <- length_app; by rewrite take_drop).
  rewrite Hsplit, populate_split in Hall.
  rewrite <- (take_drop t full) in Hall at 2.
  rewrite populate_app in Hall by lia.
  destruct (populate_spec srv (length (take t full)) 0 (take t full) c1 eq_refl)
    as (lst1 & err & ext & k & Hrun1 & Hsum1 & _).
  rewrite Hrun1 in Hall |- *.
  assert (length lst1 = length (take t full)) as Hlen1
    by (rewrite <- (length_fmap summary lst1), Hsum1; apply length_fmap).
  destruct err as [e|]; [done|]. exists (c1 ++ ext).
  destruct (populate_spec srv (length (drop t full)) (0 + length (take t full))
              (lst1 ++ drop t full) (c1 ++ ext))
    as (lst2 & err2 & ext2 & k2 & Hrun2 & Hsum2 & _ & _ & _ & Hsame & _).
  { rewrite length_app. lia. }
  rewrite Hrun2 in Hall. injection Hall as <- _ _.
  assert (length lst2 = length lst1 + length (drop t full)) as Hlen2.
  { rewrite <- (length_fmap summary lst2), Hsum2, length_fmap, length_app. done. }
  enough (lst1 = take t lst2) as <- by done.
  apply list_eq. intros j.
  destruct (decide (j < length lst1)) as [Hj|Hj].
  - rewrite lookup_take_lt by (rewrite length_take in Hlen1; lia).
    rewrite Hsame by lia. by rewrite lookup_app_l by lia.
  - rewrite (lookup_ge_None_2 lst1 j) by lia.
    destruct (decide (j < t)) as [Hjt|Hjt]; [|by rewrite lookup_take_ge by lia].
    rewrite lookup_take_lt by lia. symmetry. apply lookup_ge_None_2.
    rewrite length_take in Hlen1. rewrite length_drop in Hlen2. lia.
Qed.

End GetListFurther.

Lemma GetList_listing_fails_witness :
  GetList (unlisted [1; 2]%Z [10; 20]%Z) 3 []
  = (Returned ([], Some (ForeignError "listing failed")), [] ++ [CallListAll]).
Proof.
  apply (GetList_listing_fails (unlisted [1; 2]%Z [10; 20]%Z) 3 [] [1; 2]%Z [10; 20]%Z).
  reflexivity.
Defined.

Lemma GetList_success_cost_witness :
  ∃ lst c',
    GetList mailbox5 3 [] = (Returned (lst, None), c')
    ∧ (∃ ext, c' = [] ++ CallListAll :: ext
              ∧ commandsSent ext = (λ item, topCommand (MsgNum item) 120) <$> lst)
    ∧ length lst = (if (0 <? 3)%Z
                    then Z.to_nat 3 `min` length [1; 2; 3; 4; 5]%Z
                    else length [1; 2; 3; 4; 5]%Z)
    ∧ ∀ item, item ∈ lst → fetched mailbox5 item.
Proof.
  eexists _, _. split; [cbv; reflexivity|].
  apply (GetList_success_cost mailbox5 3 [] [1; 2; 3; 4; 5]%Z [10; 20; 30; 40; 50]%Z);
    reflexivity.
Defined.

Lemma GetList_error_sources_witness :
  ∃ lst e c',
    GetList mailbox2 0 [] = (Returned (lst, Some e), c')
    ∧ ((∃ msgs sizes, onListAll mailbox2 [] = (msgs, sizes, Some e))
       ∨ (∃ msgs sizes, onListAll mailbox2 [] = (msgs, sizes, None)
                        ∧ length msgs ≠ length sizes ∧ e = lengthMismatch)
       ∨ (∃ item ck email,
            item ∈ lst
            ∧ GetInfo mailbox2 (MsgNum item) ck = (Returned (email, Some e), c'))).
Proof.
  eexists _, _, _. split; [cbv; reflexivity|].
  apply (GetList_error_sources mailbox2 0 []). reflexivity.
Defined.

Lemma GetList_prefix_witness :
  ∃ lst0 c0,
    GetList mailbox5 0 [] = (Returned (lst0, None), c0)
    ∧ ∃ c', GetList mailbox5 3 [] = (Returned (take (Z.to_nat 3) lst0, None), c').
Proof.
  eexists _, _. split; [cbv; reflexivity|].
  apply (GetList_prefix mailbox5 3 []) with (c0 := [CallListAll; CallCmd (topCommand 5 120); CallReadLines; CallCmd (topCommand 4 120); CallReadLines; CallCmd (topCommand 3 120); CallReadLines; CallCmd (topCommand 2 120); CallReadLines; CallCmd (topCommand 1 120); CallReadLines]).
  - reflexivity.
  - lia.
Defined.
